(** * AppOscar: the ledger store and its balance / stock rules

    A shallow embedding of the [Store] class of the application (the
    localStorage-backed collections, [save], [delete] and the derived
    balances), of the submit handlers that touch two collections at once
    (sale, expense, creditor transaction), of the pages and of the service
    worker.

    Conventions of the embedding.
    - Amounts, prices and quantities are whole numbers ([Z]) and the
      arithmetic of the ledger on them is exact.  The code computes in IEEE
      doubles: [Number] is that arithmetic, [Double.getClientBalance] is the
      balance as the code adds it up, and the two agree as long as the
      absolute values that are added stay below [2^53] in total
      ([Number.add] on [Number.ofZ]); beyond that the code rounds, as it
      does on amounts with decimals ([Double.balance] on
      [Number.hundredths]).
      [None] stands for the [NaN] that [parseInt] returns on an empty or
      absent form field.
    - An [id] that is [undefined] or the empty string is the empty string:
      the only test the code makes on it, [if (item.id)], does not tell
      them apart.
    - [localStorage] holds one JSON array per key.  The seven keys of
      [EntityType] carry typed records; any other key carries records of
      which only the [id] is looked at.  [Runtime] is the storage with
      whatever text another script left under such a key. *)

From stdpp Require Import gmap strings list fin_maps sorting.
From Stdlib Require Import ZArith Lia Ascii SpecFloat.

Local Open Scope Z_scope.

(** ** Data types *)

Module Client.
Record t := mk { id : string; name : string; phone : string }.
Definition set_id (i : string) (c : t) : t := mk i (name c) (phone c).
End Client.

Module Transaction.
Record t := mk {
  id : string;
  clientId : string;
  date : string;
  amount : Z; (* positive for sale/loan, negative for payment *)
  description : string
}.
Definition set_id (i : string) (x : t) : t :=
  mk i (clientId x) (date x) (amount x) (description x).
End Transaction.

Module Sale.
Record t := mk { id : string; date : string; amount : Z; description : string }.
Definition set_id (i : string) (x : t) : t :=
  mk i (date x) (amount x) (description x).
End Sale.

Module Expense.
Record t := mk {
  id : string;
  date : string;
  amount : Z;
  category : string;
  description : string;
  creditorId : string (* optional link to a creditor; empty when absent *)
}.
Definition set_id (i : string) (x : t) : t :=
  mk i (date x) (amount x) (category x) (description x) (creditorId x).
End Expense.

Module Product.
Record t := mk {
  id : string;
  name : string;
  description : string;
  price : Z;
  quantity : Z
}.
Definition set_id (i : string) (x : t) : t :=
  mk i (name x) (description x) (price x) (quantity x).
Definition set_quantity (q : Z) (x : t) : t :=
  mk (id x) (name x) (description x) (price x) q.
End Product.

Module Creditor.
Record t := mk { id : string; name : string; phone : string }.
Definition set_id (i : string) (c : t) : t := mk i (name c) (phone c).
End Creditor.

Module CreditorTransaction.
Record t := mk {
  id : string;
  creditorId : string;
  date : string;
  amount : Z; (* positive for purchase, negative for payment *)
  description : string
}.
Definition set_id (i : string) (x : t) : t :=
  mk i (creditorId x) (date x) (amount x) (description x).
End CreditorTransaction.

(** A record stored under a key that is not an [EntityType]: the store
    only ever reads its [id]. *)
Module Foreign.
Record t := mk { id : string }.
Definition set_id (i : string) (_ : t) : t := mk i.
End Foreign.

Inductive EntityType :=
  | clients | transactions | sales | expenses | products | creditors
  | creditorTransactions.

(** The [type] argument as it exists at run time: the [EntityType]
    annotation is erased, so the methods receive an arbitrary string. *)
Inductive StorageKey :=
  | Known (ty : EntityType)
  | Unknown (name : string).

Definition keyOf (s : string) : StorageKey :=
  if decide (s = "clients") then Known clients
  else if decide (s = "transactions") then Known transactions
  else if decide (s = "sales") then Known sales
  else if decide (s = "expenses") then Known expenses
  else if decide (s = "products") then Known products
  else if decide (s = "creditors") then Known creditors
  else if decide (s = "creditorTransactions") then Known creditorTransactions
  else Unknown s.

(** The seven strings of the [EntityType] union. *)
Definition entityTypeNames : list string :=
  ["clients"; "transactions"; "sales"; "expenses"; "products"; "creditors";
   "creditorTransactions"].

#[global] Instance EntityType_eq_dec : EqDecision EntityType.
Proof. solve_decision. Defined.

#[global] Instance StorageKey_eq_dec : EqDecision StorageKey.
Proof. solve_decision. Defined.

Definition record (ty : EntityType) : Type :=
  match ty with
  | clients => Client.t
  | transactions => Transaction.t
  | sales => Sale.t
  | expenses => Expense.t
  | products => Product.t
  | creditors => Creditor.t
  | creditorTransactions => CreditorTransaction.t
  end.

Definition entity (k : StorageKey) : Type :=
  match k with
  | Known ty => record ty
  | Unknown _ => Foreign.t
  end.

(** [item.id] and [item.id = i], for a record of any collection. *)
Definition idOf {k : StorageKey} : entity k → string :=
  match k with
  | Known clients => Client.id
  | Known transactions => Transaction.id
  | Known sales => Sale.id
  | Known expenses => Expense.id
  | Known products => Product.id
  | Known creditors => Creditor.id
  | Known creditorTransactions => CreditorTransaction.id
  | Unknown _ => Foreign.id
  end.

Definition setId {k : StorageKey} (i : string) : entity k → entity k :=
  match k with
  | Known clients => Client.set_id i
  | Known transactions => Transaction.set_id i
  | Known sales => Sale.set_id i
  | Known expenses => Expense.set_id i
  | Known products => Product.set_id i
  | Known creditors => Creditor.set_id i
  | Known creditorTransactions => CreditorTransaction.set_id i
  | Unknown _ => Foreign.set_id i
  end.

(** JavaScript truthiness of a string. *)
Definition truthy (s : string) : bool := bool_decide (s ≠ "").

(** ** localStorage *)

Record LocalStorage := mkLocalStorage {
  ls_clients : list Client.t;
  ls_transactions : list Transaction.t;
  ls_sales : list Sale.t;
  ls_expenses : list Expense.t;
  ls_products : list Product.t;
  ls_creditors : list Creditor.t;
  ls_creditorTransactions : list CreditorTransaction.t;
  ls_other : gmap string (list Foreign.t)
}.

Definition emptyStorage : LocalStorage :=
  mkLocalStorage [] [] [] [] [] [] [] ∅.

(** The world a method runs in: the storage, and what the clock and the
    random generator answer to the successive calls of [generateId]:
    [dateNow n] is [Date.now()] and [mathRandom n] is
    [Math.random().toString(36).substring(2)] at the call number [n]. *)
Record World := mkWorld {
  localStorage : LocalStorage;
  generated : nat;
  dateNow : nat → N;
  mathRandom : nat → string
}.

(** [n.toString(36)] for a natural number. *)
Definition digit36 (d : N) : ascii :=
  default "0"%char
    (String.list_ascii_of_string "0123456789abcdefghijklmnopqrstuvwxyz" !! N.to_nat d).

Fixpoint toString36_aux (fuel : nat) (n : N) (acc : string) : string :=
  let acc' := String (digit36 (n mod 36)%N) acc in
  match fuel with
  | O => acc'
  | S fuel' =>
      if (n / 36 =? 0)%N then acc' else toString36_aux fuel' (n / 36)%N acc'
  end.

Definition toString36 (n : N) : string :=
  toString36_aux (N.to_nat (N.log2 n)) n "".

Definition M (A : Type) : Type := World → A * World.

Definition ret {A} (a : A) : M A := λ w, (a, w).

Definition bind {A B} (m : M A) (k : A → M B) : M B :=
  λ w, k (m w).1 (m w).2.

Notation "x <- m ;; k" := (bind m (λ x, k))
  (at level 100, m at next level, right associativity).
Notation "m ;; k" := (bind m (λ _, k))
  (at level 100, right associativity).

Definition exec {A} (m : M A) (w : World) : World := (m w).2.
Definition eval {A} (m : M A) (w : World) : A := (m w).1.

(** ** Numbers *)

(** The doubles of JavaScript (IEEE binary64), with the operations of the
    standard library's specification of floating-point arithmetic. *)
Module Number.
Definition t : Type := spec_float.
Definition prec : Z := 53.
Definition emax : Z := 1024.

(** [0] *)
Definition zero : t := S754_zero false.

(** [x + y]: the sum rounded to the nearest double, ties to even. *)
Definition add (x y : t) : t := SFadd prec emax x y.

(** The double nearest to a whole number: what [parseFloat] and
    [JSON.parse] make of its digits. *)
Definition ofZ (z : Z) : t := binary_normalize prec emax z 0 false.

(** [x / y], rounded likewise. *)
Definition div (x y : t) : t := SFdiv prec emax x y.

(** The double nearest to [z] hundredths: what [parseFloat] makes of an
    amount typed with two decimals, as the amount fields take them
    ([step="0.01"]). *)
Definition hundredths (z : Z) : t := div (ofZ z) (ofZ 100).
End Number.

(** ** The Store class *)

Module Store.

(** [data ? JSON.parse(data) : []], as a function of the storage. *)
Definition read (type : StorageKey) (ls : LocalStorage) : list (entity type) :=
  match type with
  | Known clients => ls_clients ls
  | Known transactions => ls_transactions ls
  | Known sales => ls_sales ls
  | Known expenses => ls_expenses ls
  | Known products => ls_products ls
  | Known creditors => ls_creditors ls
  | Known creditorTransactions => ls_creditorTransactions ls
  | Unknown name => default [] (ls_other ls !! name)
  end.

Definition write (type : StorageKey) : list (entity type) → LocalStorage → LocalStorage :=
  match type with
  | Known clients => λ d ls,
      mkLocalStorage d (ls_transactions ls) (ls_sales ls) (ls_expenses ls)
        (ls_products ls) (ls_creditors ls) (ls_creditorTransactions ls) (ls_other ls)
  | Known transactions => λ d ls,
      mkLocalStorage (ls_clients ls) d (ls_sales ls) (ls_expenses ls)
        (ls_products ls) (ls_creditors ls) (ls_creditorTransactions ls) (ls_other ls)
  | Known sales => λ d ls,
      mkLocalStorage (ls_clients ls) (ls_transactions ls) d (ls_expenses ls)
        (ls_products ls) (ls_creditors ls) (ls_creditorTransactions ls) (ls_other ls)
  | Known expenses => λ d ls,
      mkLocalStorage (ls_clients ls) (ls_transactions ls) (ls_sales ls) d
        (ls_products ls) (ls_creditors ls) (ls_creditorTransactions ls) (ls_other ls)
  | Known products => λ d ls,
      mkLocalStorage (ls_clients ls) (ls_transactions ls) (ls_sales ls) (ls_expenses ls)
        d (ls_creditors ls) (ls_creditorTransactions ls) (ls_other ls)
  | Known creditors => λ d ls,
      mkLocalStorage (ls_clients ls) (ls_transactions ls) (ls_sales ls) (ls_expenses ls)
        (ls_products ls) d (ls_creditorTransactions ls) (ls_other ls)
  | Known creditorTransactions => λ d ls,
      mkLocalStorage (ls_clients ls) (ls_transactions ls) (ls_sales ls) (ls_expenses ls)
        (ls_products ls) (ls_creditors ls) d (ls_other ls)
  | Unknown name => λ d ls,
      mkLocalStorage (ls_clients ls) (ls_transactions ls) (ls_sales ls) (ls_expenses ls)
        (ls_products ls) (ls_creditors ls) (ls_creditorTransactions ls)
        (<[name := d]> (ls_other ls))
  end.

Definition get (type : StorageKey) : M (list (entity type)) :=
  λ w, (read type (localStorage w), w).

Definition set (type : StorageKey) (data : list (entity type)) : M unit :=
  λ w, (tt, mkWorld (write type data (localStorage w)) (generated w)
              (dateNow w) (mathRandom w)).

Definition generateId : M string :=
  λ w, (toString36 (dateNow w (generated w)) +:+ mathRandom w (generated w),
        mkWorld (localStorage w) (S (generated w)) (dateNow w) (mathRandom w)).

(** [items.findIndex(p)], with [None] for [-1]. *)
Definition findIndex {A} (P : A → Prop) `{∀ x, Decision (P x)}
    (items : list A) : option nat :=
  fst <$> list_find P items.

(* Generic save method for all types *)
Definition save (type : StorageKey) (item : entity type) : M (entity type) :=
  items <- get type ;;
  r <- (if truthy (idOf item) then (* Update *)
          ret (item,
               match findIndex (λ i, idOf i = idOf item) items with
               | Some index => <[index := item]> items
               | None => items
               end)
        else (* Create *)
          newId <- generateId ;;
          ret (setId newId item, items ++ [setId newId item])) ;;
  set type r.2 ;;
  ret r.1.

Definition delete (type : StorageKey) (id : string) : M unit :=
  items <- get type ;;
  set type (filter (λ item, idOf item ≠ id) items) ;;
  (if decide (type = Known clients) then
     ts <- get (Known transactions) ;;
     set (Known transactions)
       (filter (λ t, Transaction.clientId t ≠ id) ts)
   else ret tt) ;;
  (if decide (type = Known creditors) then
     ts <- get (Known creditorTransactions) ;;
     set (Known creditorTransactions)
       (filter (λ t, CreditorTransaction.creditorId t ≠ id) ts)
   else ret tt).

(** The read-only methods, as functions of the storage. *)
Definition getClients (ls : LocalStorage) : list Client.t :=
  read (Known clients) ls.
Definition getSales (ls : LocalStorage) : list Sale.t :=
  read (Known sales) ls.
Definition getExpenses (ls : LocalStorage) : list Expense.t :=
  read (Known expenses) ls.
Definition getTransactionsForClient (clientId : string) (ls : LocalStorage)
    : list Transaction.t :=
  filter (λ t, Transaction.clientId t = clientId) (read (Known transactions) ls).
Definition getProducts (ls : LocalStorage) : list Product.t :=
  read (Known products) ls.
Definition getProduct (id : string) (ls : LocalStorage) : option Product.t :=
  snd <$> list_find (λ p, Product.id p = id) (read (Known products) ls).
Definition getCreditors (ls : LocalStorage) : list Creditor.t :=
  read (Known creditors) ls.
Definition getTransactionsForCreditor (creditorId : string) (ls : LocalStorage)
    : list CreditorTransaction.t :=
  filter (λ t, CreditorTransaction.creditorId t = creditorId)
    (read (Known creditorTransactions) ls).

Definition getClient (id : string) (ls : LocalStorage) : option Client.t :=
  snd <$> list_find (λ c, Client.id c = id) (read (Known clients) ls).
Definition getSale (id : string) (ls : LocalStorage) : option Sale.t :=
  snd <$> list_find (λ s, Sale.id s = id) (read (Known sales) ls).
Definition getExpense (id : string) (ls : LocalStorage) : option Expense.t :=
  snd <$> list_find (λ e, Expense.id e = id) (read (Known expenses) ls).
Definition getTransaction (id : string) (ls : LocalStorage)
    : option Transaction.t :=
  snd <$> list_find (λ t, Transaction.id t = id) (read (Known transactions) ls).
Definition getCreditor (id : string) (ls : LocalStorage) : option Creditor.t :=
  snd <$> list_find (λ c, Creditor.id c = id) (read (Known creditors) ls).
Definition getCreditorTransaction (id : string) (ls : LocalStorage)
    : option CreditorTransaction.t :=
  snd <$> list_find (λ t, CreditorTransaction.id t = id)
            (read (Known creditorTransactions) ls).

Definition getClientBalance (clientId : string) (ls : LocalStorage) : Z :=
  let transactions := getTransactionsForClient clientId ls in
  foldl (λ sum t, sum + Transaction.amount t) 0 transactions.

Definition getCreditorBalance (creditorId : string) (ls : LocalStorage) : Z :=
  let transactions := getTransactionsForCreditor creditorId ls in
  foldl (λ sum t, sum + CreditorTransaction.amount t) 0 transactions.


End Store.

(** [getClientBalance] as the code computes it: the same [reduce], the
    amounts being doubles and [+] their rounded sum. *)
Module Double.

(** The reduce over the doubles that the stored amounts stand for:
    [value z] is the double of the amount stored as [z]. *)
Definition balance (value : Z → Number.t) (clientId : string)
    (ls : LocalStorage) : Number.t :=
  let transactions := Store.getTransactionsForClient clientId ls in
  foldl (λ sum t, Number.add sum (value (Transaction.amount t)))
    Number.zero transactions.

(** The amounts being the whole numbers of the embedding. *)
Definition getClientBalance : string → LocalStorage → Number.t :=
  balance Number.ofZ.

End Double.

(** ** The submit handlers of the App class that write two collections *)

Module SelectOption.
(** An [<option>] of the product select of the sale form: its value
    and its [data-price] and [data-desc] attributes ([None] when the
    attribute is not rendered). *)
Record t := mk { value : string; price : option Z; desc : option string }.
End SelectOption.

Module SaleForm.
(** The sale form: the selected product option and the contents of the
    inputs, read as the handlers read them ([parseInt], [parseFloat]),
    together with the state of the amount and quantity widgets.  [amount]
    is the number in the amount field: a form whose amount field is still
    empty is not among these. *)
Record t := mk {
  clientId : string;
  productSelect : SelectOption.t;
  quantity : option Z;
  amount : Z;
  description : string;
  date : string;
  amountReadOnly : bool;
  quantityHidden : bool;
  quantityMax : option Z
}.
Definition productId (f : t) : string := SelectOption.value (productSelect f).

(** The user selects the option [o] and types the quantity [q]. *)
Definition choose (o : SelectOption.t) (q : option Z) (f : t) : t :=
  mk (clientId f) o q (amount f) (description f) (date f)
    (amountReadOnly f) (quantityHidden f) (quantityMax f).
End SaleForm.

Module ExpenseForm.
Record t := mk {
  creditorId : string;
  amount : Z;
  category : string;
  description : string;
  date : string
}.
End ExpenseForm.

Module CreditorTransactionForm.
Record t := mk {
  productId : string;
  quantity : option Z;
  amount : Z;
  description : string;
  date : string
}.
End CreditorTransactionForm.

Module TransactionForm.
Record t := mk { amount : Z; description : string; date : string }.
End TransactionForm.

Module Page.
(** The values of [currentPage]. *)
Inductive t := clients | sales | expenses | inventory | creditors | help.
End Page.

#[global] Instance Page_eq_dec : EqDecision Page.t.
Proof. solve_decision. Defined.

Module App.

(** How a submit handler ends: [closeModal(); render()], or an [alert]
    followed by [return]. *)
Inductive Outcome :=
  | Rendered
  | Alerted (message : string).

(** [a || b] on strings. *)
Definition orElse (a b : string) : string := if truthy a then a else b.

(** [this.store.f(...)] for a method [f] that only reads. *)
Definition store {A} (f : LocalStorage → A) : M A :=
  λ w, (f (localStorage w), w).

(** The options of the product select, as [renderSaleForm] writes them. *)
Definition manualOption : SelectOption.t := SelectOption.mk "" None None.

(** The value of an attribute written [data-desc="${text}"], as the HTML
    parser reads it back from the markup: the text is not escaped, so the
    value ends at the first double quote of the text. *)
Fixpoint attributeValue (text : string) : string :=
  match text with
  | EmptyString => EmptyString
  | String c rest =>
      if Ascii.eqb c "034"%char then EmptyString
      else String c (attributeValue rest)
  end.

(** The texts that the parser and the description input leave as they
    are up to there: those without an ampersand (which may start a character
    reference), a carriage return, a line feed or a null character. *)
Definition literal (text : string) : bool :=
  forallb (λ c, negb (bool_decide
                        (c ∈ ["&"%char; "013"%char; "010"%char; "000"%char])))
    (String.list_ascii_of_string text).

Definition productOption (p : Product.t) : SelectOption.t :=
  SelectOption.mk (Product.id p) (Some (Product.price p))
    (Some (attributeValue (Product.name p))).

Definition productOptions (ls : LocalStorage) : list SelectOption.t :=
  manualOption ::
  (productOption <$> filter (λ p, Product.quantity p > 0) (Store.getProducts ls)).

(** [parseInt(quantityInput.value) || 1] *)
Definition quantityOr1 (q : option Z) : Z :=
  match q with
  | Some n => if bool_decide (n = 0) then 1 else n
  | None => 1
  end.

Definition updateSaleForm (ls : LocalStorage) (f : SaleForm.t) : SaleForm.t :=
  let selectedOption := SaleForm.productSelect f in
  let price := default 0 (SelectOption.price selectedOption) in
  let quantity := quantityOr1 (SaleForm.quantity f) in
  if bool_decide (price > 0) then
    SaleForm.mk (SaleForm.clientId f) selectedOption (SaleForm.quantity f)
      (price * quantity)
      (default "" (SelectOption.desc selectedOption))
      (SaleForm.date f)
      true false
      (match Store.getProduct (SelectOption.value selectedOption) ls with
       | Some product => Some (Product.quantity product)
       | None => SaleForm.quantityMax f
       end)
  else
    SaleForm.mk (SaleForm.clientId f) selectedOption (SaleForm.quantity f)
      (SaleForm.amount f) (SaleForm.description f) (SaleForm.date f)
      false true (SaleForm.quantityMax f).

(** The value of the hidden [id] input of a form opened on [x]. *)
Definition hiddenId {k : StorageKey} (x : option (entity k)) : string :=
  match x with
  | Some e => idOf e
  | None => ""
  end.

Definition insufficientStock : string :=
  "No hay suficiente stock para esta venta.".

(** First block of the submit handler of the sale form: the stock check
    of a sale from the inventory.  [false] is the path that alerts and
    returns. *)
Definition takeFromStock (isEditing : bool) (fd : SaleForm.t) : M bool :=
  let productId := SaleForm.productId fd in
  if negb isEditing && truthy productId then
    product <- store (Store.getProduct productId) ;;
    match product, SaleForm.quantity fd with
    | Some product, Some quantity =>
        if bool_decide (Product.quantity product >= quantity) then
          Store.save (Known products)
            (Product.set_quantity (Product.quantity product - quantity) product) ;;
          ret true
        else ret false
    | _, _ => ret false (* no product, or a NaN quantity *)
    end
  else ret true.

(** Second block: the record of the sale. *)
Definition recordSale (sale : option Sale.t) (fd : SaleForm.t) : M unit :=
  let isEditing := bool_decide (is_Some sale) in
  let clientId := SaleForm.clientId fd in
  if negb isEditing && truthy clientId then
    Store.save (Known transactions)
      (Transaction.mk "" clientId (SaleForm.date fd)
         (Z.abs (SaleForm.amount fd)) (SaleForm.description fd)) ;;
    ret tt
  else
    Store.save (Known sales)
      (Sale.mk (hiddenId (k := Known sales) sale) (SaleForm.date fd)
         (SaleForm.amount fd) (SaleForm.description fd)) ;;
    ret tt.

Definition submitSale (sale : option Sale.t) (fd : SaleForm.t) : M Outcome :=
  let isEditing := bool_decide (is_Some sale) in
  inStock <- takeFromStock isEditing fd ;;
  if inStock : bool then
    recordSale sale fd ;;
    ret Rendered
  else ret (Alerted insufficientStock).

Definition submitExpense (expense : option Expense.t) (fd : ExpenseForm.t)
    : M Outcome :=
  let isEditing := bool_decide (is_Some expense) in
  let creditorId := ExpenseForm.creditorId fd in
  let amount := ExpenseForm.amount fd in
  Store.save (Known expenses)
    (Expense.mk (hiddenId (k := Known expenses) expense) (ExpenseForm.date fd)
       amount (ExpenseForm.category fd) (ExpenseForm.description fd)
       creditorId) ;;
  (if truthy creditorId && negb isEditing then
     Store.save (Known creditorTransactions)
       (CreditorTransaction.mk "" creditorId (ExpenseForm.date fd)
          (- Z.abs amount) (* Payment is negative *)
          ("Pago registrado desde gastos: " +:+ ExpenseForm.description fd)) ;;
     ret tt
   else ret tt) ;;
  ret Rendered.

(** First block of the submit handler of the creditor transaction form:
    the products received with a purchase enter the stock. *)
Definition receiveStock (isEditing : bool) (fd : CreditorTransactionForm.t)
    : M unit :=
  let productId := CreditorTransactionForm.productId fd in
  match CreditorTransactionForm.quantity fd with
  | Some quantity =>
      if truthy productId && bool_decide (quantity > 0) && negb isEditing then
        product <- store (Store.getProduct productId) ;;
        match product with
        | Some product =>
            Store.save (Known products)
              (Product.set_quantity (Product.quantity product + quantity) product) ;;
            ret tt
        | None => ret tt
        end
      else ret tt
  | None => ret tt (* NaN > 0 is false *)
  end.

Definition submitCreditorTransaction
    (transaction : option CreditorTransaction.t) (currentCreditorId : string)
    (fd : CreditorTransactionForm.t) : M Outcome :=
  let isEditing := bool_decide (is_Some transaction) in
  receiveStock isEditing fd ;;
  Store.save (Known creditorTransactions)
    (CreditorTransaction.mk (hiddenId (k := Known creditorTransactions) transaction)
       (match transaction with
        | Some t => orElse (CreditorTransaction.creditorId t) currentCreditorId
        | None => currentCreditorId
        end)
       (CreditorTransactionForm.date fd)
       (CreditorTransactionForm.amount fd)
       (CreditorTransactionForm.description fd)) ;;
  ret Rendered.

(** *** The state of the App class and the pages *)

(** The fields of the class that [render] reads; [""] stands for the
    [null] of [currentClientId] and [currentCreditorId]. *)
Record State := mkState {
  currentPage : Page.t;
  currentClientId : string;
  currentCreditorId : string;
  currentExpenseMonth : string; (* 'YYYY-MM' format or 'all' *)
  currentSaleMonth : string; (* 'YYYY-MM' format or 'all' *)
  currentClientFilter : string;
  currentCreditorFilter : string
}.

(** What [render] puts on the screen. *)
Inductive View :=
  | ClientsView | ClientDetailView (clientId : string)
  | SalesView | ExpensesView | InventoryView
  | CreditorsView | CreditorDetailView (creditorId : string)
  | HelpView.

(** [[...new Set(l)]]: the elements of [l] in order of first occurrence. *)
Fixpoint setOfFrom (seen : list string) (l : list string) : list string :=
  match l with
  | [] => []
  | x :: rest =>
      if decide (x ∈ seen) then setOfFrom seen rest
      else x :: setOfFrom (x :: seen) rest
  end.

Definition setOf (l : list string) : list string := setOfFrom [] l.

(** The order of the default [sort()] on strings: by code unit, the
    shorter of two strings first when one starts the other.  On the ASCII
    characters of a date it is the order of the bytes of the strings here. *)
Definition stringLe (a b : string) : Prop := String.leb a b = true.

#[global] Instance stringLe_dec (a b : string) : Decision (stringLe a b).
Proof. unfold stringLe. apply _. Defined.

(** [[...new Set(dates.map(d => d.substring(0, 7)))].sort().reverse()] *)
Definition monthsOf (dates : list string) : list string :=
  reverse (merge_sort stringLe (setOf (String.substring 0 7 <$> dates))).

(** The callback of the filters of [renderClientsPage] and
    [renderCreditorsPage], on the value of the filter and the balance. *)
Definition passesFilter (currentFilter : string) (balance : Z) : bool :=
  if decide (currentFilter = "all") then true
  else if decide (currentFilter = "debt") then bool_decide (balance > 0)
  else if decide (currentFilter = "credit") then bool_decide (balance < 0)
  else false.


(** [renderCreditorsPage]: the creditors that pass the filter. *)
Definition filteredCreditors (st : State) (ls : LocalStorage) : list Creditor.t :=
  filter (λ creditor,
            passesFilter (currentCreditorFilter st)
              (Store.getCreditorBalance (Creditor.id creditor) ls) = true)
         (Store.getCreditors ls).

(** [renderSalesPage]: the months of the select, the month that stays
    selected, the sales listed and their total. *)
Definition saleMonths (ls : LocalStorage) : list string :=
  monthsOf (Sale.date <$> Store.getSales ls).

Definition saleMonthShown (st : State) (ls : LocalStorage) : string :=
  if bool_decide (currentSaleMonth st ≠ "all")
     && negb (bool_decide (currentSaleMonth st ∈ saleMonths ls))
  then "all" else currentSaleMonth st.



(** [renderExpensesPage], likewise. *)
Definition expenseMonths (ls : LocalStorage) : list string :=
  monthsOf (Expense.date <$> Store.getExpenses ls).

Definition expenseMonthShown (st : State) (ls : LocalStorage) : string :=
  if bool_decide (currentExpenseMonth st ≠ "all")
     && negb (bool_decide (currentExpenseMonth st ∈ expenseMonths ls))
  then "all" else currentExpenseMonth st.

Definition filteredExpenses (st : State) (ls : LocalStorage) : list Expense.t :=
  let month := expenseMonthShown st ls in
  if decide (month = "all") then Store.getExpenses ls
  else filter (λ e, String.prefix month (Expense.date e) = true)
         (Store.getExpenses ls).

Definition totalExpenses (st : State) (ls : LocalStorage) : Z :=
  foldl (λ sum e, sum + Expense.amount e) 0 (filteredExpenses st ls).

(** [render], with the state it leaves.  The switch on [currentPage]: *)
Definition renderPage (st : State) (ls : LocalStorage) : View * State :=
  match currentPage st with
  | Page.clients => (ClientsView, st)
  | Page.sales =>
      (SalesView,
       mkState (currentPage st) (currentClientId st) (currentCreditorId st)
         (currentExpenseMonth st) (saleMonthShown st ls)
         (currentClientFilter st) (currentCreditorFilter st))
  | Page.expenses =>
      (ExpensesView,
       mkState (currentPage st) (currentClientId st) (currentCreditorId st)
         (expenseMonthShown st ls) (currentSaleMonth st)
         (currentClientFilter st) (currentCreditorFilter st))
  | Page.inventory => (InventoryView, st)
  | Page.creditors => (CreditorsView, st)
  | Page.help => (HelpView, st)
  end.

Definition clearCreditor (st : State) : State :=
  mkState (currentPage st) (currentClientId st) ""
    (currentExpenseMonth st) (currentSaleMonth st)
    (currentClientFilter st) (currentCreditorFilter st).

Definition clearClient (st : State) : State :=
  mkState (currentPage st) "" (currentCreditorId st)
    (currentExpenseMonth st) (currentSaleMonth st)
    (currentClientFilter st) (currentCreditorFilter st).

(** [render] once [currentClientId] is null: the creditor detail page,
    which clears a creditor that is gone and renders again. *)
Definition renderFromCreditor (st : State) (ls : LocalStorage) : View * State :=
  if truthy (currentCreditorId st) then
    match Store.getCreditor (currentCreditorId st) ls with
    | Some _ => (CreditorDetailView (currentCreditorId st), st)
    | None => renderPage (clearCreditor st) ls
    end
  else renderPage st ls.

(** [render]: the client detail page clears a client that is gone and
    renders again. *)
Definition render (st : State) (ls : LocalStorage) : View * State :=
  if truthy (currentClientId st) then
    match Store.getClient (currentClientId st) ls with
    | Some _ => (ClientDetailView (currentClientId st), st)
    | None => renderFromCreditor (clearClient st) ls
    end
  else renderFromCreditor st ls.

(** The forms a click can open. *)
Inductive Modal :=
  | ClientForm (client : option Client.t)
  | TransactionFormModal (transaction : option Transaction.t)
  | SaleFormModal (sale : option Sale.t)
  | ExpenseFormModal (expense : option Expense.t)
  | ProductForm (product : option Product.t)
  | CreditorForm (creditor : option Creditor.t)
  | CreditorTransactionFormModal (transaction : option CreditorTransaction.t).


Definition handleEditClick (type id : string) (ls : LocalStorage) : option Modal :=
  if decide (type = "clients") then Some (ClientForm (Store.getClient id ls))
  else if decide (type = "transaction") then
    Some (TransactionFormModal (Store.getTransaction id ls))
  else if decide (type = "sales") then Some (SaleFormModal (Store.getSale id ls))
  else if decide (type = "expenses") then
    Some (ExpenseFormModal (Store.getExpense id ls))
  else if decide (type = "products") then
    Some (ProductForm (Store.getProduct id ls))
  else if decide (type = "creditors") then
    Some (CreditorForm (Store.getCreditor id ls))
  else if decide (type = "creditorTransaction") then
    Some (CreditorTransactionFormModal (Store.getCreditorTransaction id ls))
  else None.

(** [handleDeleteClick]: the collection the click is about. *)
Definition storeTypeOf (type : string) : string :=
  if decide (type = "transaction") then "transactions"
  else if decide (type = "creditorTransaction") then "creditorTransactions"
  else type.

(** [handleDeleteClick], [confirmed] being the answer to [confirm].
    [None]: nothing is rendered. *)
Definition handleDeleteClick (type id : string) (confirmed : bool) (st : State)
    : M (option (View * State)) :=
  if confirmed then
    Store.delete (keyOf (storeTypeOf type)) id ;;
    shown <- store (render st) ;;
    ret (Some shown)
  else ret None.

(** The click on a button of the bottom navigation. *)
Definition navClick (page : Page.t) (st : State) (ls : LocalStorage)
    : option (View * State) :=
  if decide (currentPage st ≠ page) then
    Some (render (mkState page "" "" (currentExpenseMonth st)
                    (currentSaleMonth st) (currentClientFilter st)
                    (currentCreditorFilter st)) ls)
  else None.

(** The submit handlers of the client and transaction forms. *)
Definition submitClient (client : option Client.t) (name phone : string)
    : M Outcome :=
  Store.save (Known clients)
    (Client.mk (hiddenId (k := Known clients) client) name phone) ;;
  ret Rendered.

Definition submitTransaction (transaction : option Transaction.t)
    (currentClientId : string) (fd : TransactionForm.t) : M Outcome :=
  Store.save (Known transactions)
    (Transaction.mk (hiddenId (k := Known transactions) transaction)
       (match transaction with
        | Some t => orElse (Transaction.clientId t) currentClientId
        | None => currentClientId
        end)
       (TransactionForm.date fd) (TransactionForm.amount fd)
       (TransactionForm.description fd)) ;;
  ret Rendered.

End App.

(** ** The service worker *)

Module ServiceWorker.

(** The handlers of the three events, as transitions of the cache storage
    of the origin.  A response is its body; a request is its URL; the
    network answers a request or fails ([None]); the cache storage lists
    its named caches in the order of their creation, which is the order in
    which [caches.match] searches them. *)
Abbreviation Response := string (only parsing).
Abbreviation Cache := (gmap string string) (only parsing).
Abbreviation CacheStorage := (list (string * gmap string string)) (only parsing).
Abbreviation Network := (string → option string) (only parsing).

Definition CACHE_NAME : string := "gestion-finanzas-cache-v4".

Definition urlsToCache : list string :=
  ["/"; "/index.html"; "/index.css"; "/index.tsx"; "/cookbook.json";
   "/metadata.json"; "/manifest.json"; "/icon-192.svg"; "/icon-512.svg";
   "https://cdnjs.cloudflare.com/ajax/libs/font-awesome/6.4.0/css/all.min.css";
   "https://cdnjs.cloudflare.com/ajax/libs/font-awesome/6.4.0/webfonts/fa-solid-900.woff2";
   "https://cdnjs.cloudflare.com/ajax/libs/font-awesome/6.4.0/webfonts/fa-brands-400.woff2"].

(** [caches.open(name)]: the cache of that name, created empty at the end
    of the storage when there is none. *)
Definition cachesOpen (name : string) (cs : CacheStorage) : CacheStorage :=
  if decide (name ∈ cs.*1) then cs else cs ++ [(name, ∅)].

(** The fetches of [cache.addAll(urls)]: all the responses, or a failure
    as soon as one request fails. *)
Fixpoint fetchAll (net : Network) (urls : list string)
    : option (list (string * Response)) :=
  match urls with
  | [] => Some []
  | url :: rest =>
      match net url with
      | Some response =>
          match fetchAll net rest with
          | Some entries => Some ((url, response) :: entries)
          | None => None
          end
      | None => None
      end
  end.

(** The writes of [cache.addAll]. *)
Definition putAll (entries : list (string * Response)) (cache : Cache) : Cache :=
  foldl (λ c entry, <[entry.1 := entry.2]> c) cache entries.

(** The cache called [name] changed by [f]. *)
Fixpoint inCache (name : string) (f : Cache → Cache) (cs : CacheStorage)
    : CacheStorage :=
  match cs with
  | [] => []
  | (n, c) :: rest =>
      if decide (n = name) then (n, f c) :: rest
      else (n, c) :: inCache name f rest
  end.

(** The install event: [true] when the promise given to [waitUntil]
    resolves. *)
Definition install (net : Network) (cs : CacheStorage) : bool * CacheStorage :=
  let opened := cachesOpen CACHE_NAME cs in
  match fetchAll net urlsToCache with
  | Some entries => (true, inCache CACHE_NAME (putAll entries) opened)
  | None => (false, opened)
  end.

(** The activate event: every cache outside the whitelist is deleted. *)
Definition activate (cs : CacheStorage) : CacheStorage :=
  let cacheWhitelist := [CACHE_NAME] in
  filter (λ cache, cache.1 ∈ cacheWhitelist) cs.

(** [caches.match(request)] *)
Fixpoint cachesMatch (request : string) (cs : CacheStorage) : option Response :=
  match cs with
  | [] => None
  | (_, c) :: rest =>
      match c !! request with
      | Some response => Some response
      | None => cachesMatch request rest
      end
  end.

(** The fetch event: what [respondWith] receives, [None] when the
    promise rejects. *)
Definition fetch (request : string) (cs : CacheStorage) (net : Network)
    : option Response :=
  match cachesMatch request cs with
  | Some response => Some response (* a match in the cache *)
  | None => net request (* otherwise, from the network *)
  end.

End ServiceWorker.

(** ** The Store at run time *)

(** The [EntityType] annotation is erased at run time: [delete] receives
    any string, and uses it as a key of [localStorage].  Under a key that is
    not an entity type the storage holds whatever text a script of the
    origin left there. *)

Module Json.
(** A value as [JSON.parse] returns it: a number by the digits that
    [JSON.stringify] writes for it, an object by its members, each name
    once. *)
#[warnings="-register-all"]
Inductive t :=
  | null
  | boolean (b : bool)
  | number (digits : string)
  | text (s : string)
  | array (items : list t)
  | object (members : list (string * t)).

(** [value.name], for a [value] that is not [null]: the member of that
    name of an object, and [undefined] ([None]) on any other value. *)
Definition member (name : string) (value : t) : option t :=
  match value with
  | object members =>
      match list_find (λ m : string * t, m.1 = name) members with
      | Some (_, (_, v)) => Some v
      | None => None
      end
  | _ => None
  end.

(** [value === id], for a string [id]. *)
Definition isString (id : string) (value : option t) : bool :=
  match value with
  | Some (text s) => bool_decide (s = id)
  | _ => false
  end.
End Json.

Module Runtime.

(** The text under a key, by what [get] makes of it. *)
Inductive Text :=
  | empty (* the empty text: [data ? ... : []] takes the second branch *)
  | malformed (* a text that is not JSON *)
  | json (value : Json.t).

(** The storage of the origin: the collections of the Store, with the
    clock and the generator, and the texts under the other keys as they
    are, in place of [ls_other], which keeps of such a text only the ids of
    an array of records. *)
Record Origin := mkOrigin {
  world : World;
  texts : gmap string Text
}.

Inductive Error := SyntaxError | TypeError.

(** How a call completes. *)
Inductive Completion (A : Type) :=
  | Returns (result : A) (after : Origin)
  | Throws (error : Error) (after : Origin).
Arguments Returns {A} _ _.
Arguments Throws {A} _ _.

Definition E (A : Type) : Type := Origin → Completion A.

Definition ret {A} (a : A) : E A := λ o, Returns a o.

Definition throw {A} (error : Error) : E A := λ o, Throws error o.

Definition bind {A B} (m : E A) (k : A → E B) : E B :=
  λ o, match m o with
       | Returns a o' => k a o'
       | Throws error o' => Throws error o'
       end.

Local Notation "x <~ m ;; k" := (bind m (λ x, k))
  (at level 100, m at next level, right associativity).

(** [get], under a key that is not an entity type: [JSON.parse] throws
    a [SyntaxError] on a text that is not JSON. *)
Definition get (name : string) : E Json.t :=
  λ o, match texts o !! name with
       | None | Some empty => Returns (Json.array []) o
       | Some malformed => Throws SyntaxError o
       | Some (json value) => Returns value o
       end.

(** [set], under such a key: the text written is the JSON of [data], and
    [setItem] is taken to succeed (the quota of the storage is not
    modelled). *)
Definition set (name : string) (data : Json.t) : E unit :=
  λ o, Returns tt (mkOrigin (world o) (<[name := json data]> (texts o))).

(** [item.id !== id]: reading a property of [null] throws a
    [TypeError]. *)
Definition idDiffers (id : string) (item : Json.t) : E bool :=
  match item with
  | Json.null => throw TypeError
  | _ => ret (negb (Json.isString id (Json.member "id" item)))
  end.

(** [items.filter(item => item.id !== id)]: only an array has the method
    [filter]. *)
Fixpoint keepOthers (id : string) (items : list Json.t) : E (list Json.t) :=
  match items with
  | [] => ret []
  | item :: rest =>
      differs <~ idDiffers id item ;;
      kept <~ keepOthers id rest ;;
      ret (if differs : bool then item :: kept else kept)
  end.

Definition withoutId (id : string) (items : Json.t) : E Json.t :=
  match items with
  | Json.array items => kept <~ keepOthers id items ;; ret (Json.array kept)
  | _ => throw TypeError
  end.

(** [delete], called with any string.  With one of the seven entity
    types it is [Store.delete] on the collections of the Store; with any
    other string the two tests on [type] are false. *)
Definition delete (type id : string) : E unit :=
  match keyOf type with
  | Known ty =>
      λ o, Returns tt
             (mkOrigin (exec (Store.delete (Known ty) id) (world o)) (texts o))
  | Unknown name =>
      items <~ get name ;;
      items <~ withoutId id items ;;
      set name items
  end.

End Runtime.

(** ** Vocabulary of the statements *)

(** The id that the next call of [generateId] returns. *)
Definition nextId (w : World) : string := eval Store.generateId w.

(** No record of any collection carries the id [i]. *)
Definition unusedId (i : string) (ls : LocalStorage) : Prop :=
  ∀ (k : StorageKey) (x : entity k), x ∈ Store.read k ls → idOf x ≠ i.

(** The arithmetic sum of a list of amounts. *)
Fixpoint sumZ (l : list Z) : Z :=
  match l with
  | [] => 0
  | x :: rest => x + sumZ rest
  end.

(** Σ amount over the transactions of [txs] with [clientId = c]. *)
Definition ledgerSum (c : string) (txs : list Transaction.t) : Z :=
  sumZ (Transaction.amount <$> filter (λ t, Transaction.clientId t = c) txs).

(** The amounts of the transactions of the client [c], as stored. *)
Definition amountsOf (c : string) (ls : LocalStorage) : list Z :=
  Transaction.amount <$> Store.getTransactionsForClient c ls.

(** The sum of a list of doubles, added one after the other, from left
    to right, to [acc]. *)
Fixpoint sumFrom (acc : Number.t) (l : list Number.t) : Number.t :=
  match l with
  | [] => acc
  | x :: rest => sumFrom (Number.add acc x) rest
  end.

(** The whole numbers that every double represents exactly lie between
    [-2^53] and [2^53]: [safe l] says that the absolute values of [l] add up
    to less than that, so that no sum of elements of [l] leaves the range. *)
Definition safe (l : list Z) : Prop := sumZ (Z.abs <$> l) < 2 ^ 53.

(** The mantissa [m] shifted left by [k] bits. *)
Definition shiftMantissa (m : positive) (k : Z) : positive :=
  match k with
  | Zpos k => Pos.iter xO m k
  | _ => m
  end.

(** A sequence of Transaction upserts, first to last. *)
Fixpoint upsertAll (txs : list Transaction.t) : M unit :=
  match txs with
  | [] => ret tt
  | t :: rest => Store.save (Known transactions) t ;; upsertAll rest
  end.

(** [items.find(i => i.id === id)] on the collection of [k]: the body
    shared by [getClient], [getSale], [getExpense], [getTransaction],
    [getProduct], [getCreditor] and [getCreditorTransaction]. *)
Definition findById (k : StorageKey) (id : string) (ls : LocalStorage)
    : option (entity k) :=
  snd <$> list_find (λ x, idOf x = id) (Store.read k ls).

(** The ids of a collection, in order. *)
Definition idsOf (k : StorageKey) (ls : LocalStorage) : list string :=
  idOf <$> Store.read k ls.

(** Every stored record carries a non-empty id. *)
Definition identified (ls : LocalStorage) : Prop :=
  ∀ (k : StorageKey) (x : entity k), x ∈ Store.read k ls → idOf x ≠ "".


(** The values of [data-type] that the pages write on their delete
    buttons. *)
Definition deleteButtonTypes : list string :=
  ["clients"; "transaction"; "sales"; "expenses"; "products"; "creditors";
   "creditorTransaction"].


(** The list page of a value of [currentPage]. *)
Definition viewOfPage (page : Page.t) : App.View :=
  match page with
  | Page.clients => App.ClientsView
  | Page.sales => App.SalesView
  | Page.expenses => App.ExpensesView
  | Page.inventory => App.InventoryView
  | Page.creditors => App.CreditorsView
  | Page.help => App.HelpView
  end.

(** ** Sample data *)

Module Sample.
Definition ana : Client.t := Client.mk "c1" "Ana" "555-0101".
Definition beto : Client.t := Client.mk "c2" "Beto" "555-0102".

Definition prestamo : Transaction.t :=
  Transaction.mk "t1" "c1" "2024-03-01" 50000 "prestamo".
Definition pago : Transaction.t :=
  Transaction.mk "t2" "c1" "2024-03-05" (-20000) "pago".
Definition abono : Transaction.t :=
  Transaction.mk "t3" "c2" "2024-03-06" (-700) "abono".

Definition tornillos : Product.t :=
  Product.mk "p1" "Tornillos" "caja" 500 10.
Definition muestra : Product.t :=
  Product.mk "p2" "Muestra" "sin precio" 0 5.

Definition ferreteria : Creditor.t := Creditor.mk "k1" "Ferreteria" "555-0201".
Definition compra : CreditorTransaction.t :=
  CreditorTransaction.mk "x1" "k1" "2024-03-02" 9000 "compra".

Definition luz : Expense.t :=
  Expense.mk "e1" "2024-03-03" 100 "servicios" "luz" "".

Definition storage : LocalStorage :=
  mkLocalStorage [ana; beto] [prestamo; pago; abono] [] [luz]
    [tornillos; muestra] [ferreteria] [compra] ∅.

Definition world : World :=
  mkWorld storage 0 (λ n, 1700000000000 + N.of_nat n)%N (λ _, "4fzzzxjylrx").

(** A loan of [2^53], past which not every whole number is a double, and
    an adjustment of 1. *)
Definition millones : Transaction.t :=
  Transaction.mk "" "c1" "2024-03-01" 9007199254740992 "prestamo".
Definition ajuste : Transaction.t :=
  Transaction.mk "" "c1" "2024-03-02" 1 "ajuste".

(** Three sales on credit of 10, 20 and 30: hundredths, when the amounts
    are read with two decimals. *)
Definition diez : Transaction.t :=
  Transaction.mk "" "c1" "2024-03-03" 10 "venta".
Definition veinte : Transaction.t :=
  Transaction.mk "" "c1" "2024-03-03" 20 "venta".
Definition treinta : Transaction.t :=
  Transaction.mk "" "c1" "2024-03-03" 30 "venta".

(** An edit of [pago] and a new transaction. *)
Definition pagoEdited : Transaction.t :=
  Transaction.mk "t2" "c1" "2024-03-05" (-25000) "pago corregido".
Definition nuevo : Transaction.t :=
  Transaction.mk "" "c2" "2024-03-07" 1200 "venta".
(** A record whose id is set but stored nowhere. *)
Definition perdido : Transaction.t :=
  Transaction.mk "zzz" "c1" "2024-03-08" 300 "perdido".

(** A product whose name holds a double quote, alone in its storage. *)
Definition tubo : Product.t :=
  Product.mk "p3" ("Tubo 1/2" +:+ String "034"%char " PVC") "" 900 4.

(** The App looking at the detail page of Ana, and at the list of the
    clients that owe. *)
Definition onAna : App.State :=
  App.mkState Page.clients "c1" "" "all" "all" "all" "all".

(** A storage with three general sales, and the sales page on March
    2024 and on a month without sales. *)
Definition ventas : LocalStorage :=
  mkLocalStorage [] []
    [Sale.mk "s1" "2024-02-10" 100 "clavos"; Sale.mk "s2" "2024-03-01" 250 "pintura";
     Sale.mk "s3" "2024-03-15" 50 "lija"]
    [] [] [] [] ∅.

(** A sale form as the user left it: no client, the amount typed by
    hand, the quantity input at its initial value. *)
Definition blankSale : SaleForm.t :=
  SaleForm.mk "" App.manualOption (Some 1) 700 "a mano" "2024-03-10"
    false true None.

(** The two scenarios of the specification, from an empty storage. *)
Definition fresh : World :=
  mkWorld emptyStorage 0 (λ n, 1700000000000 + N.of_nat n)%N (λ _, "4fzzzxjylrx").

(** The sample storage, in which other scripts of the origin left a theme
    that is no JSON, the settings as an object, and a cart. *)
Definition origin : Runtime.Origin :=
  Runtime.mkOrigin world
    (<["theme" := Runtime.malformed]>
       (<["settings" := Runtime.json (Json.object [("lang", Json.text "es")])]>
          (<["cart" := Runtime.json
                         (Json.array [Json.object [("id", Json.text "c1")];
                                      Json.object [("id", Json.text "c2")];
                                      Json.number "3"])]> ∅))).

(** An empty storage, with a clock that stays within one millisecond and a
    generator that repeats itself. *)
Definition sameMillisecond : World :=
  mkWorld emptyStorage 0 (λ _, 1700000000000%N) (λ _, "4fzzzxjylrx").

Definition anaScenario : M (Z * Z * Z * list Client.t * list Transaction.t) :=
  ana <- Store.save (Known clients) (Client.mk "" "Ana" "555-0101") ;;
  b0 <- App.store (Store.getClientBalance (Client.id ana)) ;;
  Store.save (Known transactions)
    (Transaction.mk "" (Client.id ana) "2024-03-01" 50000 "prestamo") ;;
  b1 <- App.store (Store.getClientBalance (Client.id ana)) ;;
  Store.save (Known transactions)
    (Transaction.mk "" (Client.id ana) "2024-03-05" (-20000) "pago") ;;
  b2 <- App.store (Store.getClientBalance (Client.id ana)) ;;
  Store.delete (Known clients) (Client.id ana) ;;
  remaining <- App.store Store.getClients ;;
  history <- App.store (Store.getTransactionsForClient (Client.id ana)) ;;
  ret (b0, b1, b2, remaining, history).

Definition sell (product : Product.t) (q : Z) : M App.Outcome :=
  ls <- App.store (λ ls, ls) ;;
  App.submitSale None
    (App.updateSaleForm ls
       (SaleForm.choose (App.productOption product) (Some q) blankSale)).

Definition tornillosScenario
    : M (App.Outcome * option Z * list Sale.t * App.Outcome * option Z) :=
  p <- Store.save (Known products) (Product.mk "" "Tornillos" "" 500 10) ;;
  first <- sell p 3 ;;
  stock1 <- App.store (Store.getProduct (Product.id p)) ;;
  sales <- App.store Store.getSales ;;
  second <- sell p 10 ;;
  stock2 <- App.store (Store.getProduct (Product.id p)) ;;
  ret (first, Product.quantity <$> stock1, sales, second,
       Product.quantity <$> stock2).
End Sample.

(** * Properties *)

(** ** Reading and writing the storage *)

Lemma read_write_same (k : StorageKey) (d : list (entity k)) (ls : LocalStorage) :
  Store.read k (Store.write k d ls) = d.
Proof.
  destruct k as [[]|name]; simpl; try reflexivity.
  by rewrite lookup_insert_eq.
Qed.

Lemma read_write_other (k k' : StorageKey) (d : list (entity k)) (ls : LocalStorage) :
  k ≠ k' → Store.read k' (Store.write k d ls) = Store.read k' ls.
Proof.
  intros Hne.
  destruct k as [[]|name], k' as [[]|name']; simpl; try reflexivity;
    try congruence.
  rewrite lookup_insert_ne; [done | congruence].
Qed.

Lemma write_read_known (ty : EntityType) (ls : LocalStorage) :
  Store.write (Known ty) (Store.read (Known ty) ls) ls = ls.
Proof. by destruct ty, ls. Qed.

Example toString36_examples :
  toString36 0 = "0" ∧ toString36 35 = "z" ∧ toString36 36 = "10" ∧
  toString36 1296 = "100" ∧ toString36 1700000000000 = "loyw3v28".
Proof. repeat split; reflexivity. Qed.

(** ** [save] *)

Lemma toString36_aux_nonempty (fuel : nat) (n : N) (acc : string) :
  toString36_aux fuel n acc ≠ "".
Proof.
  revert n acc. induction fuel as [|fuel IH]; intros n acc; simpl.
  - discriminate.
  - destruct (n / 36 =? 0)%N; [discriminate | apply IH].
Qed.

Lemma nextId_truthy (w : World) : truthy (nextId w) = true.
Proof.
  unfold truthy, nextId, eval, Store.generateId, toString36; simpl.
  apply bool_decide_eq_true.
  intros Heq.
  destruct (toString36_aux _ _ _) eqn:E; simpl in Heq; [|discriminate].
  by apply toString36_aux_nonempty in E.
Qed.

Lemma save_create (k : StorageKey) (item : entity k) (w : World) :
  truthy (idOf item) = false →
  Store.save k item w =
    (setId (nextId w) item,
     mkWorld
       (Store.write k (Store.read k (localStorage w) ++ [setId (nextId w) item])
          (localStorage w))
       (S (generated w)) (dateNow w) (mathRandom w)).
Proof.
  intros Hid. unfold Store.save, bind, Store.get, Store.set, ret. simpl.
  rewrite Hid. reflexivity.
Qed.

Lemma save_update (k : StorageKey) (item : entity k) (w : World) :
  truthy (idOf item) = true →
  Store.save k item w =
    (item,
     mkWorld
       (Store.write k
          (match Store.findIndex (λ i, idOf i = idOf item)
                   (Store.read k (localStorage w)) with
           | Some index => <[index := item]> (Store.read k (localStorage w))
           | None => Store.read k (localStorage w)
           end)
          (localStorage w))
       (generated w) (dateNow w) (mathRandom w)).
Proof.
  intros Hid. unfold Store.save, bind, Store.get, Store.set, ret. simpl.
  rewrite Hid. reflexivity.
Qed.

Lemma idOf_setId (k : StorageKey) (i : string) (item : entity k) :
  idOf (setId i item) = i.
Proof. by destruct k as [[]|]. Qed.

Lemma truthy_false (s : string) : truthy s = false ↔ s = "".
Proof.
  unfold truthy. rewrite bool_decide_eq_false. split; [|by intros ->; auto].
  intros H. by destruct (decide (s = "")).
Qed.

Lemma truthy_true (s : string) : truthy s = true ↔ s ≠ "".
Proof. unfold truthy. by rewrite bool_decide_eq_true. Qed.

Lemma findIndex_first {A} (P : A → Prop) `{∀ x, Decision (P x)}
    (items : list A) (index : nat) (old : A) :
  items !! index = Some old → P old →
  (∀ j y, (j < index)%nat → items !! j = Some y → ¬ P y) →
  Store.findIndex P items = Some index.
Proof.
  intros Hl HP Hfirst. unfold Store.findIndex.
  assert (list_find P items = Some (index, old)) as ->; [|done].
  apply list_find_Some. eauto.
Qed.

Lemma findIndex_none {A} (P : A → Prop) `{∀ x, Decision (P x)} (items : list A) :
  (∀ x, x ∈ items → ¬ P x) → Store.findIndex P items = None.
Proof.
  intros Hno. unfold Store.findIndex.
  assert (list_find P items = None) as ->; [|done].
  apply list_find_None, Forall_forall. exact Hno.
Qed.

Lemma save_other_keys (k k' : StorageKey) (item : entity k) (w : World) :
  k' ≠ k →
  Store.read k' (localStorage (exec (Store.save k item) w)) =
  Store.read k' (localStorage w).
Proof.
  intros Hne. unfold exec.
  destruct (truthy (idOf item)) eqn:Hid.
  - rewrite save_update by done. simpl. by rewrite read_write_other.
  - rewrite save_create by done. simpl. by rewrite read_write_other.
Qed.

Lemma save_create_read (k : StorageKey) (item : entity k) (w : World) :
  idOf item = "" →
  Store.read k (localStorage (exec (Store.save k item) w))
  = Store.read k (localStorage w) ++ [setId (nextId w) item].
Proof.
  intros Hid. unfold exec. rewrite save_create by by apply truthy_false.
  simpl. apply read_write_same.
Qed.

(** C6, as the code has it.  [save] is an upsert.  With an unset id the
    record receives the id that [generateId] makes of the clock and of a
    random number, [Date.now()] in base 36 followed by the digits of
    [Math.random()]; the id is non-empty, the record is appended at the end
    of its collection, and the next call asks the clock and the generator
    again.  The id is not compared with the stored ones: when no stored
    record carries it, the new record is, after the call, the only one of
    the whole storage with that id.  With a set id that a stored record
    carries, the first such record is replaced in place: same length, same
    position, every other position untouched.  In both cases the returned
    record carries a non-empty id, and no other collection changes. *)
Theorem save_upsert (k : StorageKey) (item : entity k) (w : World) :
  let r := eval (Store.save k item) w in
  let w' := exec (Store.save k item) w in
  let ls := localStorage w in
  let ls' := localStorage w' in
  (idOf item = "" →
     idOf r = toString36 (dateNow w (generated w)) +:+ mathRandom w (generated w)
     ∧ r = setId (idOf r) item ∧ idOf r ≠ ""
     ∧ Store.read k ls' = Store.read k ls ++ [r]
     ∧ generated w' = S (generated w)
     ∧ (unusedId (idOf r) ls →
        ∀ (k' : StorageKey) (x : entity k') (j : nat),
          Store.read k' ls' !! j = Some x → idOf x = idOf r →
          k' = k ∧ j = length (Store.read k ls)))
  ∧ (idOf item ≠ "" →
     ∀ (index : nat) (old : entity k),
       Store.read k ls !! index = Some old →
       idOf old = idOf item →
       (∀ j y, (j < index)%nat → Store.read k ls !! j = Some y →
               idOf y ≠ idOf item) →
       r = item ∧ idOf r ≠ ""
       ∧ Store.read k ls' = <[index := item]> (Store.read k ls)
       ∧ length (Store.read k ls') = length (Store.read k ls)
       ∧ Store.read k ls' !! index = Some item
       ∧ (∀ j, j ≠ index → Store.read k ls' !! j = Store.read k ls !! j)
       ∧ generated w' = generated w)
  ∧ (∀ k', k' ≠ k → Store.read k' ls' = Store.read k' ls).
Proof.
  intros r w' ls ls'. subst r w' ls ls'. unfold eval, exec.
  split; [|split].
  - intros Hid. rewrite save_create by by apply truthy_false. simpl.
    rewrite idOf_setId, read_write_same.
    split; [done|]. split; [done|].
    split; [apply truthy_true, nextId_truthy|]. split; [done|].
    split; [done|].
    intros Hfresh k' x j Hl Hx.
    destruct (decide (k' = k)) as [->|Hne].
    + split; [done|].
      rewrite read_write_same in Hl.
      apply lookup_app_Some in Hl as [Hl|[Hge Hl]].
      * exfalso. eapply Hfresh; [|exact Hx]. by eapply list_elem_of_lookup_2.
      * apply lookup_lt_Some in Hl. simpl in Hl. lia.
    + rewrite read_write_other in Hl by done.
      exfalso. eapply Hfresh; [|exact Hx]. by eapply list_elem_of_lookup_2.
  - intros Hid index old Hl Hold Hfirst.
    rewrite save_update by by apply truthy_true. simpl.
    rewrite read_write_same.
    rewrite (findIndex_first _ _ index old Hl Hold Hfirst).
    split; [done|]. split; [done|]. split; [done|].
    split; [apply length_insert|].
    split; [apply list_lookup_insert_eq; by eapply lookup_lt_Some|].
    split; [|done].
    intros j Hj. by apply list_lookup_insert_ne.
  - intros k' Hne. by apply save_other_keys.
Qed.

Lemma sample_ids_unused (i : string) :
  i ∉ ["c1"; "c2"; "t1"; "t2"; "t3"; "e1"; "p1"; "p2"; "k1"; "x1"] →
  unusedId i Sample.storage.
Proof.
  intros Hi k x Hx Heq. apply Hi. subst i.
  destruct k as [[]|name]; simpl in Hx;
    repeat (apply elem_of_cons in Hx as [->|Hx]; [simpl; set_solver|]);
    by apply elem_of_nil in Hx.
Defined.

Lemma save_upsert_witness :
  Store.read (Known transactions)
    (localStorage (exec (Store.save (Known transactions) Sample.pagoEdited)
                     Sample.world))
  = [Sample.prestamo; Sample.pagoEdited; Sample.abono]
  ∧ Store.read (Known transactions)
      (localStorage (exec (Store.save (Known transactions) Sample.nuevo)
                       Sample.world))
    = [Sample.prestamo; Sample.pago; Sample.abono;
       Transaction.mk "loyw3v284fzzzxjylrx" "c2" "2024-03-07" 1200 "venta"]
  ∧ (∀ (k' : StorageKey) (x : entity k') (j : nat),
       Store.read k'
         (localStorage (exec (Store.save (Known transactions) Sample.nuevo)
                          Sample.world)) !! j = Some x →
       idOf x = "loyw3v284fzzzxjylrx" →
       k' = Known transactions ∧ j = 3%nat).
Proof.
  pose proof (save_upsert (Known transactions) Sample.pagoEdited Sample.world)
    as (_ & Hupdate & _).
  pose proof (save_upsert (Known transactions) Sample.nuevo Sample.world)
    as (Hcreate & _ & _).
  split; [|split].
  - destruct (Hupdate ltac:(discriminate) 1%nat Sample.pago
                ltac:(reflexivity) ltac:(reflexivity)) as (_ & _ & -> & _).
    + intros j y Hj Hy. assert (j = 0%nat) as -> by lia.
      injection Hy as <-. discriminate.
    + reflexivity.
  - destruct (Hcreate ltac:(reflexivity)) as (Hid & Hr & _ & -> & _).
    rewrite Hr, Hid. reflexivity.
  - destruct (Hcreate ltac:(reflexivity)) as (Hid & _ & _ & _ & _ & Hunique).
    rewrite Hid in Hunique. apply Hunique.
    apply sample_ids_unused. intros Hin.
    vm_compute in Hin.
    repeat (apply elem_of_cons in Hin as [Hin|Hin]; [discriminate|]).
    by apply elem_of_nil in Hin.
Defined.

(** C6 as stated fails: the id is not unique.  When the clock and the
    random generator answer twice the same, which nothing excludes and
    [save] does not check, two clients created one after the other receive
    the same id; the second [save] assigns an id that a stored record
    carries already. *)
Lemma save_id_not_unique_counterexample :
  let w1 := exec (Store.save (Known clients) (Client.mk "" "Ana" "555-0101"))
              Sample.sameMillisecond in
  let second := eval (Store.save (Known clients) (Client.mk "" "Beto" "555-0102"))
                  w1 in
  let w2 := exec (Store.save (Known clients) (Client.mk "" "Beto" "555-0102"))
              w1 in
  Store.getClients (localStorage w1)
  = [Client.mk "loyw3v284fzzzxjylrx" "Ana" "555-0101"]
  ∧ second = Client.mk "loyw3v284fzzzxjylrx" "Beto" "555-0102"
  ∧ ¬ unusedId (Client.id second) (localStorage w1)
  ∧ Store.getClients (localStorage w2)
    = [Client.mk "loyw3v284fzzzxjylrx" "Ana" "555-0101";
       Client.mk "loyw3v284fzzzxjylrx" "Beto" "555-0102"]
  ∧ ¬ NoDup (idsOf (Known clients) (localStorage w2)).
Proof.
  intros w1 second w2.
  split; [reflexivity|]. split; [reflexivity|]. split; [|split].
  - intros Hunused.
    apply (Hunused (Known clients) (Client.mk "loyw3v284fzzzxjylrx" "Ana" "555-0101"));
      [|reflexivity].
    apply list_elem_of_here.
  - reflexivity.
  - intros Hnodup.
    assert (idsOf (Known clients) (localStorage w2)
            = ["loyw3v284fzzzxjylrx"; "loyw3v284fzzzxjylrx"]) as Hids
      by reflexivity.
    rewrite Hids in Hnodup. apply NoDup_cons in Hnodup as [Hnotin _].
    apply Hnotin. apply list_elem_of_here.
Qed.

(** C10.  A record whose id is set but matches no record of the
    collection is not stored: every collection reads as before, no id is
    generated, and [save] still returns the record.  Under a key of
    [EntityType] the world is exactly the one before the call. *)
Theorem save_unmatched_id_noop (k : StorageKey) (item : entity k) (w : World) :
  idOf item ≠ "" →
  (∀ x, x ∈ Store.read k (localStorage w) → idOf x ≠ idOf item) →
  eval (Store.save k item) w = item
  ∧ (∀ k', Store.read k' (localStorage (exec (Store.save k item) w)) =
           Store.read k' (localStorage w))
  ∧ generated (exec (Store.save k item) w) = generated w
  ∧ (∀ ty, k = Known ty → exec (Store.save k item) w = w).
Proof.
  intros Hid Hno. unfold eval, exec.
  rewrite save_update by by apply truthy_true. simpl.
  rewrite findIndex_none by done.
  split; [done|]. split; [|split; [done|]].
  - intros k'. destruct (decide (k = k')) as [<-|Hne].
    + apply read_write_same.
    + by apply read_write_other.
  - intros ty ->. rewrite write_read_known. by destruct w.
Qed.

Lemma save_unmatched_id_noop_witness :
  eval (Store.save (Known transactions) Sample.perdido) Sample.world
    = Sample.perdido
  ∧ exec (Store.save (Known transactions) Sample.perdido) Sample.world
    = Sample.world.
Proof.
  destruct (save_unmatched_id_noop (Known transactions) Sample.perdido
              Sample.world) as (Hr & _ & _ & Hw).
  - discriminate.
  - intros x Hx. simpl in Hx.
    repeat (apply elem_of_cons in Hx as [->|Hx]; [discriminate|]).
    by apply elem_of_nil in Hx.
  - split; [exact Hr | by apply (Hw transactions)].
Defined.

(** ** Balances *)

Lemma exec_bind {A B} (m : M A) (k : A → M B) (w : World) :
  exec (bind m k) w = exec (k (eval m w)) (exec m w).
Proof. reflexivity. Qed.

Lemma exec_then_ret {A B} (m : M A) (b : B) (w : World) :
  exec (m ;; ret b) w = exec m w.
Proof. reflexivity. Qed.

Lemma foldl_add_sumZ {A} (f : A → Z) (l : list A) (acc : Z) :
  foldl (λ sum t, sum + f t) acc l = acc + sumZ (f <$> l).
Proof.
  revert acc. induction l as [|x l IH]; intros acc; csimpl.
  - lia.
  - rewrite IH. lia.
Qed.

Lemma sumZ_app (l1 l2 : list Z) : sumZ (l1 ++ l2) = sumZ l1 + sumZ l2.
Proof. induction l1 as [|x l1 IH]; csimpl; lia. Qed.

#[global] Instance sumZ_Permutation : Proper ((≡ₚ) ==> (=)) sumZ.
Proof. intros l1 l2 Hp. induction Hp; simpl; lia. Qed.





#[global] Instance ledgerSum_Permutation (c : string) :
  Proper ((≡ₚ) ==> (=)) (ledgerSum c).
Proof. intros l1 l2 Hp. unfold ledgerSum. by rewrite Hp. Qed.

Lemma getClientBalance_ledgerSum (c : string) (ls : LocalStorage) :
  Store.getClientBalance c ls = ledgerSum c (Store.read (Known transactions) ls).
Proof.
  unfold Store.getClientBalance, Store.getTransactionsForClient, ledgerSum.
  rewrite foldl_add_sumZ. apply Z.add_0_l.
Qed.


(** ** Doubles *)

(** The sum of two whole numbers in doubles is exact, as long as the
    numbers and their sum are below [2^53] in absolute value. *)

Lemma Zpos_iter_xO (m k : positive) :
  Zpos (Pos.iter xO m k) = Zpos m * 2 ^ Zpos k.
Proof.
  induction k as [|k IH] using Pos.peano_ind.
  - simpl. lia.
  - rewrite Pos.iter_succ, Pos2Z.inj_succ, Z.pow_succ_r by lia.
    rewrite Pos2Z.inj_xO, IH. lia.
Qed.

Lemma Zpos_shiftMantissa (m : positive) (k : Z) :
  0 ≤ k → Zpos (shiftMantissa m k) = Zpos m * 2 ^ k.
Proof.
  intros Hk. destruct k as [|k|k]; simpl; [lia| |lia].
  apply Zpos_iter_xO.
Qed.

Lemma digits_iter_xO (m k : positive) :
  digits2_pos (Pos.iter xO m k) = (digits2_pos m + k)%positive.
Proof.
  induction k as [|k IH] using Pos.peano_ind.
  - simpl. lia.
  - rewrite Pos.iter_succ. simpl. rewrite IH. lia.
Qed.

Lemma digits_shiftMantissa (m : positive) (k : Z) :
  0 ≤ k → Zpos (digits2_pos (shiftMantissa m k)) = Zpos (digits2_pos m) + k.
Proof.
  intros Hk. destruct k as [|k|k]; simpl; [lia| |lia].
  rewrite digits_iter_xO. lia.
Qed.

Lemma digits2_pos_bounds (m : positive) :
  2 ^ (Zpos (digits2_pos m) - 1) ≤ Zpos m < 2 ^ Zpos (digits2_pos m).
Proof.
  induction m as [m IH|m IH|]; simpl digits2_pos.
  - rewrite Pos2Z.inj_succ.
    replace (Z.succ (Zpos (digits2_pos m)) - 1)
      with (Z.succ (Zpos (digits2_pos m) - 1)) by lia.
    rewrite !Z.pow_succ_r by lia.
    change (Zpos m~1) with (2 * Zpos m + 1). lia.
  - rewrite Pos2Z.inj_succ.
    replace (Z.succ (Zpos (digits2_pos m)) - 1)
      with (Z.succ (Zpos (digits2_pos m) - 1)) by lia.
    rewrite !Z.pow_succ_r by lia.
    change (Zpos m~0) with (2 * Zpos m). lia.
  - simpl. lia.
Qed.

Lemma digits2_pos_le (m : positive) (n : Z) :
  Zpos m < 2 ^ n → 0 ≤ n → Zpos (digits2_pos m) ≤ n.
Proof.
  intros Hm Hn. destruct (digits2_pos_bounds m) as [Hlo _].
  destruct (Z_le_gt_dec (Zpos (digits2_pos m)) n) as [|Hgt]; [done|].
  assert (2 ^ n ≤ 2 ^ (Zpos (digits2_pos m) - 1))
    by (apply Z.pow_le_mono_r; lia).
  lia.
Qed.

Lemma iter_pos_shr_1 (n M : positive) :
  iter_pos shr_1 n (Build_shr_record (Zpos (Pos.iter xO M n)) false false)
  = Build_shr_record (Zpos M) false false.
Proof.
  revert M. induction n as [n IH|n IH|]; intros M; simpl.
  - by rewrite !IH.
  - by rewrite !IH.
  - done.
Qed.

Lemma binary_round_aux_canonical (s : bool) (m : positive) (e : Z) :
  fexp 53 1024 (Zpos (digits2_pos m) + e) = e → e ≤ 971 →
  binary_round_aux 53 1024 s (Zpos m) e loc_Exact = S754_finite s m e.
Proof.
  intros Hfexp He. unfold binary_round_aux, shr_fexp. simpl Zdigits2.
  rewrite Hfexp, Z.sub_diag. simpl.
  rewrite Hfexp, Z.sub_diag. simpl.
  assert ((e <=? 1024 - 53) = true) as -> by (apply Z.leb_le; lia). done.
Qed.

Lemma binary_round_shl (s : bool) (m : positive) (e t : Z) :
  fexp 53 1024 (Zpos (digits2_pos m) + e) = t →
  t ≤ e → t ≤ 971 →
  binary_round 53 1024 s m e = S754_finite s (shiftMantissa m (e - t)) t.
Proof.
  intros Ht Hle Hmax. unfold binary_round, shl_align. rewrite Ht.
  destruct (t - e) as [|d|d] eqn:Hd; try lia.
  - assert (e = t) as Heq by lia. subst e. rewrite Z.sub_diag. simpl.
    apply binary_round_aux_canonical; [done|lia].
  - assert (e - t = Zpos d) as -> by lia. simpl.
    apply binary_round_aux_canonical; [|lia].
    rewrite digits_iter_xO.
    replace (Zpos (digits2_pos m + d) + t)
      with (Zpos (digits2_pos m) + e) by lia.
    done.
Qed.

Lemma binary_round_shr (s : bool) (M n : positive) (e : Z) :
  fexp 53 1024 (Zpos (digits2_pos M) + Zpos n + e) = e + Zpos n →
  e + Zpos n ≤ 971 →
  binary_round 53 1024 s (Pos.iter xO M n) e = S754_finite s M (e + Zpos n).
Proof.
  intros Hfexp Hmax. unfold binary_round, shl_align.
  rewrite digits_iter_xO.
  replace (Zpos (digits2_pos M + n) + e)
    with (Zpos (digits2_pos M) + Zpos n + e) by lia.
  rewrite Hfexp. replace (e + Zpos n - e) with (Zpos n) by lia.
  unfold binary_round_aux, shr_fexp. simpl Zdigits2.
  rewrite digits_iter_xO.
  replace (Zpos (digits2_pos M + n) + e)
    with (Zpos (digits2_pos M) + Zpos n + e) by lia.
  rewrite Hfexp. replace (e + Zpos n - e) with (Zpos n) by lia.
  simpl shr. rewrite iter_pos_shr_1. simpl.
  replace (Zpos (digits2_pos M) + (e + Zpos n))
    with (Zpos (digits2_pos M) + Zpos n + e) by lia.
  rewrite Hfexp, Z.sub_diag. simpl.
  assert ((e + Zpos n <=? 1024 - 53) = true) as -> by (apply Z.leb_le; lia).
  done.
Qed.

Lemma fexp_small (d : Z) : 1 ≤ d → d ≤ 53 → fexp 53 1024 d = d - 53.
Proof. intros Hlo Hhi. unfold fexp, emin. lia. Qed.

Lemma shiftMantissa_shiftMantissa (m : positive) (j k : Z) :
  0 ≤ j → 0 ≤ k →
  shiftMantissa (shiftMantissa m j) k = shiftMantissa m (j + k).
Proof.
  intros Hj Hk. apply Pos2Z.inj.
  rewrite !Zpos_shiftMantissa by lia. rewrite Z.pow_add_r by lia. lia.
Qed.

Lemma digits2_pos_pos (m : positive) : 1 ≤ Zpos (digits2_pos m).
Proof. lia. Qed.

(** Rounding [m * 2^K * 2^(-K)], for a mantissa below [2^53], gives the
    normal form of [m]. *)
Lemma binary_round_scaled (s : bool) (m : positive) (K : Z) :
  Zpos m < 2 ^ 53 → 0 ≤ K →
  binary_round 53 1024 s (shiftMantissa m K) (- K)
  = S754_finite s (shiftMantissa m (53 - Zpos (digits2_pos m)))
      (Zpos (digits2_pos m) - 53).
Proof.
  intros Hm HK.
  pose proof (digits2_pos_le m 53 Hm ltac:(lia)) as Hd.
  pose proof (digits2_pos_pos m) as Hd1.
  set (d := Zpos (digits2_pos m)) in *.
  assert (Hfexp : fexp 53 1024 (Zpos (digits2_pos (shiftMantissa m K)) + - K)
                  = d - 53).
  { rewrite digits_shiftMantissa by lia. fold d.
    replace (d + K + - K) with d by lia. by apply fexp_small. }
  destruct (Z_le_gt_dec (d - 53) (- K)) as [Hle|Hgt].
  - rewrite (binary_round_shl s (shiftMantissa m K) (- K) (d - 53) Hfexp)
      by lia.
    rewrite shiftMantissa_shiftMantissa by lia. f_equal. f_equal. lia.
  - destruct (d - 53 + K) as [|n|n] eqn:Hn; try lia.
    assert (shiftMantissa m K = Pos.iter xO (shiftMantissa m (53 - d)) n)
      as ->.
    { apply Pos2Z.inj. rewrite Zpos_iter_xO, !Zpos_shiftMantissa by lia.
      rewrite <- Z.mul_assoc, <- Z.pow_add_r by lia. f_equal. f_equal. lia. }
    rewrite binary_round_shr.
    + f_equal. lia.
    + rewrite digits_shiftMantissa by lia. fold d.
      replace (d + (53 - d) + Zpos n + - K) with d by lia.
      rewrite fexp_small by lia. lia.
    + lia.
Qed.

Lemma binary_round_int (s : bool) (m : positive) :
  Zpos m < 2 ^ 53 →
  binary_round 53 1024 s m 0
  = S754_finite s (shiftMantissa m (53 - Zpos (digits2_pos m)))
      (Zpos (digits2_pos m) - 53).
Proof. intros Hm. exact (binary_round_scaled s m 0 Hm ltac:(lia)). Qed.

Lemma binary_normalize_scaled (c K : Z) :
  Z.abs c < 2 ^ 53 → 0 ≤ K →
  binary_normalize 53 1024 (c * 2 ^ K) (- K) false
  = binary_normalize 53 1024 c 0 false.
Proof.
  intros Hc HK. destruct c as [|m|m]; [done| |].
  - replace (Zpos m * 2 ^ K) with (Zpos (shiftMantissa m K)) by (by rewrite Zpos_shiftMantissa).
    simpl binary_normalize.
    by rewrite (binary_round_scaled false m K), binary_round_int by lia.
  - replace (Zneg m * 2 ^ K) with (Zneg (shiftMantissa m K)).
    2: { rewrite <- !Pos2Z.opp_pos, Zpos_shiftMantissa by lia. lia. }
    simpl binary_normalize.
    by rewrite (binary_round_scaled true m K), binary_round_int by lia.
Qed.

Lemma ofZ_pos (m : positive) :
  Zpos m < 2 ^ 53 →
  Number.ofZ (Zpos m)
  = S754_finite false (shiftMantissa m (53 - Zpos (digits2_pos m)))
      (Zpos (digits2_pos m) - 53).
Proof. apply binary_round_int. Qed.

Lemma ofZ_neg (m : positive) :
  Zpos m < 2 ^ 53 →
  Number.ofZ (Zneg m)
  = S754_finite true (shiftMantissa m (53 - Zpos (digits2_pos m)))
      (Zpos (digits2_pos m) - 53).
Proof. apply binary_round_int. Qed.

Lemma shl_align_fst (m : positive) (e ez : Z) :
  ez ≤ e → fst (shl_align m e ez) = shiftMantissa m (e - ez).
Proof.
  intros Hle. unfold shl_align.
  destruct (ez - e) as [|d|d] eqn:Hd; try lia; simpl.
  - by replace (e - ez) with 0 by lia.
  - by replace (e - ez) with (Zpos d) by lia.
Qed.

(** The sum of two finite numbers in normal form. *)
Lemma add_finite (sa sb : bool) (ma mb : positive) :
  Zpos ma < 2 ^ 53 → Zpos mb < 2 ^ 53 →
  let a := cond_Zopp sa (Zpos ma) in
  let b := cond_Zopp sb (Zpos mb) in
  Z.abs (a + b) < 2 ^ 53 →
  SFadd 53 1024
    (S754_finite sa (shiftMantissa ma (53 - Zpos (digits2_pos ma)))
       (Zpos (digits2_pos ma) - 53))
    (S754_finite sb (shiftMantissa mb (53 - Zpos (digits2_pos mb)))
       (Zpos (digits2_pos mb) - 53))
  = Number.ofZ (a + b).
Proof.
  intros Ha Hb a b Hab.
  pose proof (digits2_pos_le ma 53 Ha ltac:(lia)) as Hda.
  pose proof (digits2_pos_le mb 53 Hb ltac:(lia)) as Hdb.
  set (da := Zpos (digits2_pos ma)) in *.
  set (db := Zpos (digits2_pos mb)) in *.
  assert (1 ≤ da) by (subst da; lia). assert (1 ≤ db) by (subst db; lia).
  unfold SFadd.
  rewrite !shl_align_fst by lia.
  rewrite !shiftMantissa_shiftMantissa by lia.
  set (K := 53 - Z.min da db).
  replace (53 - da + (da - 53 - Z.min (da - 53) (db - 53))) with K by lia.
  replace (53 - db + (db - 53 - Z.min (da - 53) (db - 53))) with K by lia.
  replace (Z.min (da - 53) (db - 53)) with (- K) by lia.
  assert (cond_Zopp sa (Zpos (shiftMantissa ma K)) + cond_Zopp sb (Zpos (shiftMantissa mb K))
          = (a + b) * 2 ^ K) as ->.
  { rewrite !Zpos_shiftMantissa by lia. subst a b. destruct sa, sb; simpl; lia. }
  unfold Number.ofZ. apply binary_normalize_scaled; lia.
Qed.

Lemma Number_add_ofZ (a b : Z) :
  Z.abs a < 2 ^ 53 → Z.abs b < 2 ^ 53 → Z.abs (a + b) < 2 ^ 53 →
  Number.add (Number.ofZ a) (Number.ofZ b) = Number.ofZ (a + b).
Proof.
  intros Ha Hb Hab. unfold Number.add, Number.prec, Number.emax.
  destruct a as [|ma|ma], b as [|mb|mb];
    rewrite ?Z.add_0_l, ?Z.add_0_r; try done.
  - by rewrite ofZ_pos by lia.
  - by rewrite ofZ_neg by lia.
  - by rewrite ofZ_pos by lia.
  - rewrite !ofZ_pos by lia. by apply (add_finite false false).
  - rewrite ofZ_pos, ofZ_neg by lia. by apply (add_finite false true).
  - by rewrite ofZ_neg by lia.
  - rewrite ofZ_pos, ofZ_neg by lia. by apply (add_finite true false).
  - rewrite !ofZ_neg by lia. by apply (add_finite true true).
Qed.

Lemma foldl_add_sumFrom {A} (value : Z → Number.t) (f : A → Z) (l : list A)
    (acc : Number.t) :
  foldl (λ sum t, Number.add sum (value (f t))) acc l
  = sumFrom acc (value <$> (f <$> l)).
Proof.
  revert acc. induction l as [|x l IH]; intros acc; csimpl; [done|apply IH].
Qed.

Lemma balance_sumFrom (value : Z → Number.t) (c : string) (ls : LocalStorage) :
  Double.balance value c ls = sumFrom Number.zero (value <$> amountsOf c ls).
Proof. unfold Double.balance, amountsOf. apply foldl_add_sumFrom. Qed.

Lemma getClientBalance_sumFrom (c : string) (ls : LocalStorage) :
  Double.getClientBalance c ls
  = sumFrom Number.zero (Number.ofZ <$> amountsOf c ls).
Proof. apply balance_sumFrom. Qed.

Lemma sumZ_abs_nonneg (l : list Z) : 0 ≤ sumZ (Z.abs <$> l).
Proof. induction l as [|x l IH]; csimpl; lia. Qed.

Lemma sumZ_abs_bound (l : list Z) : Z.abs (sumZ l) ≤ sumZ (Z.abs <$> l).
Proof. induction l as [|x l IH]; csimpl; lia. Qed.

(** Within the safe range the left-to-right sum of doubles is the exact
    sum. *)
Lemma sumFrom_exact (l : list Z) (acc : Z) :
  Z.abs acc + sumZ (Z.abs <$> l) < 2 ^ 53 →
  sumFrom (Number.ofZ acc) (Number.ofZ <$> l) = Number.ofZ (acc + sumZ l).
Proof.
  revert acc. induction l as [|x l IH]; intros acc Hsafe; csimpl in *.
  - by rewrite Z.add_0_r.
  - pose proof (sumZ_abs_nonneg l).
    rewrite Number_add_ofZ by lia. rewrite IH by lia. f_equal. lia.
Qed.

Lemma getClientBalance_exact (c : string) (ls : LocalStorage) :
  safe (amountsOf c ls) →
  Double.getClientBalance c ls = Number.ofZ (sumZ (amountsOf c ls)).
Proof.
  intros Hsafe. rewrite getClientBalance_sumFrom.
  change Number.zero with (Number.ofZ 0).
  rewrite sumFrom_exact by (unfold safe in Hsafe; lia). done.
Qed.

Lemma getClientBalance_amountsOf (c : string) (ls : LocalStorage) :
  Store.getClientBalance c ls = sumZ (amountsOf c ls).
Proof. apply getClientBalance_ledgerSum. Qed.

Lemma amountsOf_Permutation (c : string) (ls ls2 : LocalStorage) :
  Store.read (Known transactions) ls ≡ₚ Store.read (Known transactions) ls2 →
  amountsOf c ls ≡ₚ amountsOf c ls2.
Proof.
  intros Hp. unfold amountsOf, Store.getTransactionsForClient. by rewrite Hp.
Qed.

Lemma amountsOf_after_create (c : string) (t : Transaction.t) (w : World) :
  Transaction.id t = "" →
  amountsOf c (localStorage (exec (Store.save (Known transactions) t) w))
  = amountsOf c (localStorage w)
    ++ (if decide (Transaction.clientId t = c) then [Transaction.amount t] else []).
Proof.
  intros Hid. unfold amountsOf, Store.getTransactionsForClient.
  rewrite (save_create_read (Known transactions)) by done.
  rewrite filter_app, fmap_app, filter_cons, filter_nil. simpl.
  by destruct (decide (Transaction.clientId t = c)).
Qed.

Lemma amountsOf_after_creations (c : string) (ups : list Transaction.t) (w : World) :
  Forall (λ t, Transaction.id t = "") ups →
  amountsOf c (localStorage (exec (upsertAll ups) w))
  = amountsOf c (localStorage w)
    ++ (Transaction.amount <$> filter (λ t, Transaction.clientId t = c) ups).
Proof.
  intros Hall. revert w.
  induction Hall as [|t ups Ht Hall IH]; intros w; simpl.
  - unfold exec, ret. simpl. by rewrite app_nil_r.
  - rewrite exec_bind, IH, amountsOf_after_create by done.
    rewrite filter_cons, <- app_assoc.
    by destruct (decide (Transaction.clientId t = c)).
Qed.

(** C1, as the code has it.  [getClientBalance c] adds the amounts of
    the transactions whose [clientId] is [c] from left to right, in the
    order in which they are stored, each addition rounded to a double,
    whatever doubles the stored amounts stand for; so it does after every
    prefix of any sequence of upserts, and a transaction that is created
    adds its amount to the balance of its client.  Where the amounts are
    whole numbers whose absolute values add up to less than [2^53] no
    addition rounds: the balance is the arithmetic sum, and it depends
    neither on the order of the stored transactions nor on the order in
    which a sequence of transactions is created. *)
Theorem client_balance_is_rounded_sum (c : string) (w : World) :
  let ls := localStorage w in
  (∀ (value : Z → Number.t) (ups : list Transaction.t) (n : nat),
     let ls' := localStorage (exec (upsertAll (take n ups)) w) in
     Double.balance value c ls'
     = sumFrom Number.zero (value <$> amountsOf c ls'))
  ∧ (∀ (value : Z → Number.t) (t : Transaction.t),
       Transaction.id t = "" →
       Double.balance value c
         (localStorage (exec (Store.save (Known transactions) t) w))
       = if decide (Transaction.clientId t = c)
         then Number.add (Double.balance value c ls)
                (value (Transaction.amount t))
         else Double.balance value c ls)
  ∧ (safe (amountsOf c ls) →
     Double.getClientBalance c ls = Number.ofZ (sumZ (amountsOf c ls))
     ∧ Double.getClientBalance c ls = Number.ofZ (Store.getClientBalance c ls)
     ∧ ∀ ls2 : LocalStorage,
         Store.read (Known transactions) ls
           ≡ₚ Store.read (Known transactions) ls2 →
         Double.getClientBalance c ls2 = Double.getClientBalance c ls)
  ∧ (∀ ups ups' : list Transaction.t,
       Forall (λ t, Transaction.id t = "") ups → ups ≡ₚ ups' →
       safe (amountsOf c ls
             ++ (Transaction.amount <$>
                 filter (λ t, Transaction.clientId t = c) ups)) →
       Double.getClientBalance c (localStorage (exec (upsertAll ups) w))
       = Number.ofZ (sumZ (amountsOf c ls) + ledgerSum c ups)
       ∧ Double.getClientBalance c (localStorage (exec (upsertAll ups') w))
         = Double.getClientBalance c (localStorage (exec (upsertAll ups) w))).
Proof.
  intros ls. subst ls.
  split; [intros value ups n ls'; apply balance_sumFrom|].
  split; [|split].
  - intros value t Hid. rewrite !balance_sumFrom.
    rewrite amountsOf_after_create by done.
    destruct (decide (Transaction.clientId t = c)); [|by rewrite app_nil_r].
    rewrite fmap_app. generalize (value <$> amountsOf c (localStorage w)).
    generalize Number.zero. intros acc l. revert acc.
    induction l as [|x l IH]; intros acc; csimpl; [done|apply IH].
  - intros Hsafe.
    split; [by apply getClientBalance_exact|].
    split; [by rewrite getClientBalance_amountsOf; apply getClientBalance_exact|].
    intros ls2 Hp.
    pose proof (amountsOf_Permutation c _ _ Hp) as Hamounts.
    rewrite !getClientBalance_exact; [by rewrite Hamounts|done|].
    unfold safe in *. by rewrite <- Hamounts.
  - intros ups ups' Hall Hp Hsafe.
    assert (Forall (λ t, Transaction.id t = "") ups') as Hall'
      by by rewrite <- Hp.
    assert (Hafter : ∀ l, Forall (λ t, Transaction.id t = "") l → ups ≡ₚ l →
              Double.getClientBalance c (localStorage (exec (upsertAll l) w))
              = Number.ofZ (sumZ (amountsOf c (localStorage w)) + ledgerSum c ups)).
    { intros l Hl Hpl. rewrite getClientBalance_exact.
      - rewrite amountsOf_after_creations, sumZ_app by done.
        unfold ledgerSum. by rewrite Hpl.
      - rewrite amountsOf_after_creations by done.
        unfold safe in *. by rewrite <- Hpl. }
    split; [by apply Hafter|].
    by rewrite (Hafter ups'), (Hafter ups).
Qed.

Lemma client_balance_is_rounded_sum_witness :
  let later : Transaction.t :=
    Transaction.mk "" "c1" "2024-03-09" 4000 "venta" in
  Double.getClientBalance "c1" Sample.storage = Number.ofZ 30000
  ∧ Double.getClientBalance "c1"
      (mkLocalStorage [] [Sample.abono; Sample.pago; Sample.prestamo]
         [] [] [] [] [] ∅)
    = Double.getClientBalance "c1" Sample.storage
  ∧ Double.getClientBalance "c1"
      (localStorage (exec (upsertAll [later; Sample.nuevo]) Sample.world))
    = Double.getClientBalance "c1"
        (localStorage (exec (upsertAll [Sample.nuevo; later]) Sample.world))
  ∧ Double.getClientBalance "c1"
      (localStorage (exec (upsertAll [Sample.nuevo; later]) Sample.world))
    = Number.ofZ (30000 + 4000)
  ∧ Double.getClientBalance "c1"
      (localStorage (exec (Store.save (Known transactions) Sample.ajuste)
                       (exec (Store.save (Known transactions) Sample.millones)
                          Sample.fresh)))
    = Number.add (Number.ofZ 9007199254740992) (Number.ofZ 1).
Proof.
  intros later.
  destruct (client_balance_is_rounded_sum "c1" Sample.world)
    as (_ & _ & Hexact & Hcreate).
  destruct Hexact as (Hsum & _ & Hperm); [reflexivity|].
  destruct (Hcreate [Sample.nuevo; later] [later; Sample.nuevo])
    as [Hafter Hswap]; [repeat constructor | apply perm_swap | reflexivity |].
  split; [exact Hsum|]. split; [|split; [exact Hswap | split; [exact Hafter|]]].
  - apply Hperm. simpl.
    etrans; [apply perm_swap|]. etrans; [apply perm_skip, perm_swap|].
    etrans; [apply perm_swap|]. done.
  - destruct (client_balance_is_rounded_sum "c1"
                (exec (Store.save (Known transactions) Sample.millones)
                   Sample.fresh)) as (_ & Hadd & _).
    etrans; [exact (Hadd Number.ofZ Sample.ajuste eq_refl)|]. reflexivity.
Defined.

(** C1 as stated fails: the balance is not the arithmetic sum and
    depends on the order of the upserts.  A loan of [2^53] followed by two
    adjustments of 1 leaves the balance at [2^53], each addition of 1 being
    rounded away; the same three transactions created with the adjustments
    first give [2^53 + 2].  Two upserts that update the same stored
    transaction leave the amount of the one made last, in exact arithmetic
    as well.  And three sales of 0.10, 0.20 and 0.30 add up to
    0.6000000000000001, which is not the double of 0.60; created in the
    opposite order they add up to 0.6. *)
Lemma client_balance_order_counterexample :
  let first := localStorage
                 (exec (upsertAll [Sample.millones; Sample.ajuste; Sample.ajuste])
                    Sample.fresh) in
  let second := localStorage
                  (exec (upsertAll [Sample.ajuste; Sample.ajuste; Sample.millones])
                     Sample.fresh) in
  let menor := Transaction.mk "t2" "c1" "2024-03-05" (-1000) "pago" in
  let edited := localStorage
                  (exec (upsertAll [Sample.pagoEdited; menor]) Sample.world) in
  let swapped := localStorage
                   (exec (upsertAll [menor; Sample.pagoEdited]) Sample.world) in
  ([Sample.millones; Sample.ajuste; Sample.ajuste]
     ≡ₚ [Sample.ajuste; Sample.ajuste; Sample.millones]
   ∧ amountsOf "c1" first = [9007199254740992; 1; 1]
   ∧ amountsOf "c1" second = [1; 1; 9007199254740992]
   ∧ Double.getClientBalance "c1" first = Number.ofZ 9007199254740992
   ∧ Double.getClientBalance "c1" second = Number.ofZ 9007199254740994
   ∧ Double.getClientBalance "c1" first ≠ Double.getClientBalance "c1" second
   ∧ Double.getClientBalance "c1" first
     ≠ Number.ofZ (9007199254740992 + 1 + 1))
  ∧ (Double.getClientBalance "c1" edited = Number.ofZ 49000
     ∧ Double.getClientBalance "c1" swapped = Number.ofZ 25000
     ∧ Store.getClientBalance "c1" edited = 49000
     ∧ Store.getClientBalance "c1" swapped = 25000)
  ∧ (let rising := localStorage
                     (exec (upsertAll [Sample.diez; Sample.veinte; Sample.treinta])
                        Sample.fresh) in
     let falling := localStorage
                      (exec (upsertAll [Sample.treinta; Sample.veinte; Sample.diez])
                         Sample.fresh) in
     Double.balance Number.hundredths "c1" rising
     = S754_finite false 5404319552844596 (-53)
     ∧ Double.balance Number.hundredths "c1" falling
       = S754_finite false 5404319552844595 (-53)
     ∧ Number.hundredths (10 + 20 + 30)
       = S754_finite false 5404319552844595 (-53)
     ∧ Double.balance Number.hundredths "c1" rising
       ≠ Number.hundredths (10 + 20 + 30)
     ∧ Double.balance Number.hundredths "c1" rising
       ≠ Double.balance Number.hundredths "c1" falling).
Proof.
  intros first second menor edited swapped. split; [|split].
  - split.
    { etrans; [apply perm_swap|]. apply perm_skip, perm_swap. }
    split; [reflexivity|]. split; [reflexivity|].
    split; [reflexivity|]. split; [reflexivity|].
    split; vm_compute; discriminate.
  - repeat split.
  - intros rising falling.
    split; [reflexivity|]. split; [reflexivity|]. split; [reflexivity|].
    split; vm_compute; discriminate.
Qed.

(** ** Total client debt *)








(** ** [delete] *)

Lemma filter_filter_complement {A} (P : A → Prop) `{∀ x, Decision (P x)}
    (l : list A) :
  filter P (filter (λ x, ¬ P x) l) = [].
Proof.
  apply elem_of_nil_inv. intros x Hx.
  apply list_elem_of_filter in Hx as [HP Hx].
  apply list_elem_of_filter in Hx as [HnP _]. done.
Qed.

Lemma delete_clients (id : string) (w : World) :
  localStorage (exec (Store.delete (Known clients) id) w) =
  Store.write (Known transactions)
    (filter (λ t, Transaction.clientId t ≠ id)
       (Store.read (Known transactions) (localStorage w)))
    (Store.write (Known clients)
       (filter (λ c, Client.id c ≠ id) (Store.read (Known clients) (localStorage w)))
       (localStorage w)).
Proof. reflexivity. Qed.

Lemma delete_creditors (id : string) (w : World) :
  localStorage (exec (Store.delete (Known creditors) id) w) =
  Store.write (Known creditorTransactions)
    (filter (λ t, CreditorTransaction.creditorId t ≠ id)
       (Store.read (Known creditorTransactions) (localStorage w)))
    (Store.write (Known creditors)
       (filter (λ c, Creditor.id c ≠ id)
          (Store.read (Known creditors) (localStorage w)))
       (localStorage w)).
Proof. reflexivity. Qed.

(** C2.  After [delete('clients', id)] no client of [getClients()] has
    the id and [getTransactionsForClient(id)] is empty, the other clients
    being kept in order; the same holds for [delete('creditors', id)],
    [getCreditors()] and [getTransactionsForCreditor(id)]. *)
Theorem delete_cascades (id : string) (w : World) :
  let ls := localStorage w in
  let afterClient := localStorage (exec (Store.delete (Known clients) id) w) in
  let afterCreditor := localStorage (exec (Store.delete (Known creditors) id) w) in
  ((∀ c, c ∈ Store.getClients afterClient → Client.id c ≠ id)
   ∧ Store.getClients afterClient
     = filter (λ c, Client.id c ≠ id) (Store.getClients ls)
   ∧ Store.getTransactionsForClient id afterClient = [])
  ∧ ((∀ c, c ∈ Store.getCreditors afterCreditor → Creditor.id c ≠ id)
     ∧ Store.getCreditors afterCreditor
       = filter (λ c, Creditor.id c ≠ id) (Store.getCreditors ls)
     ∧ Store.getTransactionsForCreditor id afterCreditor = []).
Proof.
  intros ls afterClient afterCreditor. subst ls afterClient afterCreditor.
  rewrite delete_clients, delete_creditors.
  unfold Store.getClients, Store.getCreditors, Store.getTransactionsForClient,
    Store.getTransactionsForCreditor. simpl.
  split; (split; [|split]).
  - intros c Hc. by apply list_elem_of_filter in Hc as [Hne _].
  - reflexivity.
  - apply (filter_filter_complement (λ t, Transaction.clientId t = id)).
  - intros c Hc. by apply list_elem_of_filter in Hc as [Hne _].
  - reflexivity.
  - apply (filter_filter_complement (λ t, CreditorTransaction.creditorId t = id)).
Qed.

Lemma keyOf_unknown (name : string) :
  name ∉ entityTypeNames → keyOf name = Unknown name.
Proof.
  intros Hname. unfold keyOf.
  repeat (destruct (decide _) as [Heq|_];
          [exfalso; apply Hname; rewrite Heq; unfold entityTypeNames;
           set_solver|]).
  reflexivity.
Qed.

Lemma idDiffers_returns (id : string) (item : Json.t) (o : Runtime.Origin) :
  item ≠ Json.null →
  Runtime.idDiffers id item o
  = Runtime.Returns (negb (Json.isString id (Json.member "id" item))) o.
Proof. intros Hitem. by destruct item. Qed.

Lemma keepOthers_null (id : string) (items : list Json.t) (o : Runtime.Origin) :
  Json.null ∈ items →
  Runtime.keepOthers id items o = Runtime.Throws Runtime.TypeError o.
Proof.
  induction items as [|item rest IH]; intros Hnull.
  { by apply elem_of_nil in Hnull. }
  simpl. unfold Runtime.bind at 1.
  destruct item;
    try (apply elem_of_cons in Hnull as [[=]|Hnull];
         cbn [Runtime.idDiffers Runtime.ret]; unfold Runtime.bind at 1;
         by rewrite IH).
  reflexivity.
Qed.

Lemma keepOthers_returns (id : string) (items : list Json.t) (o : Runtime.Origin) :
  Json.null ∉ items →
  Runtime.keepOthers id items o
  = Runtime.Returns
      (filter (λ item, Json.isString id (Json.member "id" item) = false) items)
      o.
Proof.
  induction items as [|item rest IH]; intros Hnull; [done|].
  simpl. unfold Runtime.bind at 1.
  rewrite idDiffers_returns by (intros ->; apply Hnull; left).
  unfold Runtime.bind at 1.
  rewrite IH by (intros Hin; apply Hnull; by right).
  unfold Runtime.ret. rewrite filter_cons.
  destruct (decide (Json.isString id (Json.member "id" item) = false))
    as [Heq|Hne].
  - by rewrite Heq.
  - apply not_false_is_true in Hne. by rewrite Hne.
Qed.

(** With one of the seven entity types the call never ends in an error:
    it is [Store.delete] on the collections, and the other keys are not
    touched. *)
Lemma delete_known_type (type id : string) (o : Runtime.Origin) :
  type ∈ entityTypeNames →
  ∃ ty : EntityType,
    keyOf type = Known ty
    ∧ Runtime.delete type id o
      = Runtime.Returns tt
          (Runtime.mkOrigin
             (exec (Store.delete (Known ty) id) (Runtime.world o))
             (Runtime.texts o)).
Proof.
  intros Htype. unfold entityTypeNames in Htype.
  repeat (apply elem_of_cons in Htype as [->|Htype]; [by eexists|]).
  by apply elem_of_nil in Htype.
Qed.

(** C9, as the code has it.  [delete] does not check its [type]
    argument.  Called with a string that is not one of the seven entity
    types, it reads the text that [localStorage] holds under that string.
    When there is none, or the empty text, or the text of an array without
    [null], the call returns normally: the collections of the Store are
    untouched and the storage afterwards holds, under that string, the array
    without the elements whose [id] is the given string (the empty array
    when there was no text).  The call ends in an error only by accident of
    that text, and then nothing is written: a [SyntaxError] when the text is
    not JSON, a [TypeError] when it is JSON but not an array, or an array
    that holds [null]. *)
Theorem delete_unknown_type (type id : string) (o : Runtime.Origin) :
  type ∉ entityTypeNames →
  let stored := Runtime.texts o !! type in
  let written := λ items,
    Runtime.Returns tt
      (Runtime.mkOrigin (Runtime.world o)
         (<[type := Runtime.json (Json.array items)]> (Runtime.texts o))) in
  (stored = None ∨ stored = Some Runtime.empty →
   Runtime.delete type id o = written [])
  ∧ (stored = Some Runtime.malformed →
     Runtime.delete type id o = Runtime.Throws Runtime.SyntaxError o)
  ∧ (∀ value, stored = Some (Runtime.json value) →
       (∀ items, value ≠ Json.array items) →
       Runtime.delete type id o = Runtime.Throws Runtime.TypeError o)
  ∧ (∀ items, stored = Some (Runtime.json (Json.array items)) →
       (Json.null ∈ items →
        Runtime.delete type id o = Runtime.Throws Runtime.TypeError o)
       ∧ (Json.null ∉ items →
          Runtime.delete type id o
          = written (filter (λ item,
                               Json.isString id (Json.member "id" item) = false)
                       items))).
Proof.
  intros Htype stored written. subst stored written.
  unfold Runtime.delete. rewrite (keyOf_unknown type Htype).
  unfold Runtime.bind, Runtime.get, Runtime.set, Runtime.withoutId,
    Runtime.ret, Runtime.throw.
  destruct (Runtime.texts o !! type) as [[| |value]|];
    (split; [|split; [|split]]);
    try (by intros [?|?]); try done.
  - intros value' [= <-] Hvalue.
    destruct value; try done. by destruct (Hvalue items).
  - intros items [= ->]. unfold Runtime.bind. split; intros Hnull.
    + by rewrite keepOthers_null.
    + by rewrite keepOthers_returns.
Qed.

Lemma delete_unknown_type_witness :
  Runtime.delete "theme" "c1" Sample.origin
  = Runtime.Throws Runtime.SyntaxError Sample.origin
  ∧ Runtime.delete "settings" "c1" Sample.origin
    = Runtime.Throws Runtime.TypeError Sample.origin
  ∧ Runtime.delete "cart" "c1" Sample.origin
    = Runtime.Returns tt
        (Runtime.mkOrigin Sample.world
           (<["cart" := Runtime.json
                          (Json.array [Json.object [("id", Json.text "c2")];
                                       Json.number "3"])]>
              (Runtime.texts Sample.origin))).
Proof.
  assert (Hnames : ∀ name, name ∈ ["theme"; "settings"; "cart"] →
                           name ∉ entityTypeNames).
  { intros name Hname Hin. unfold entityTypeNames in Hin.
    repeat (apply elem_of_cons in Hname as [->|Hname];
            [repeat (apply elem_of_cons in Hin as [Hin|Hin]; [discriminate|]);
             by apply elem_of_nil in Hin|]).
    by apply elem_of_nil in Hname. }
  split; [|split].
  - apply (delete_unknown_type "theme" "c1" Sample.origin).
    + apply Hnames. set_solver.
    + reflexivity.
  - destruct (delete_unknown_type "settings" "c1" Sample.origin)
      as (_ & _ & Hother & _); [apply Hnames; set_solver|].
    apply (Hother (Json.object [("lang", Json.text "es")])); [reflexivity|].
    discriminate.
  - destruct (delete_unknown_type "cart" "c1" Sample.origin)
      as (_ & _ & _ & Harray); [apply Hnames; set_solver|].
    edestruct Harray as [_ Hkept]; [reflexivity|].
    etrans; [apply Hkept|reflexivity].
    intros Hin.
    repeat (apply elem_of_cons in Hin as [Hin|Hin]; [discriminate|]).
    by apply elem_of_nil in Hin.
Defined.

(** C9 as stated fails: [delete] of the unknown type "widgets", under
    which the storage holds nothing, is not rejected.  It returns, and has
    written an empty array under that name. *)
Lemma delete_unknown_type_counterexample :
  let o := Runtime.mkOrigin Sample.world ∅ in
  Runtime.delete "widgets" "c1" o
  = Runtime.Returns tt
      (Runtime.mkOrigin Sample.world
         (<["widgets" := Runtime.json (Json.array [])]> ∅))
  ∧ ¬ (∃ error after, Runtime.delete "widgets" "c1" o = Runtime.Throws error after).
Proof.
  intros o.
  assert (Hrun : Runtime.delete "widgets" "c1" o
                 = Runtime.Returns tt
                     (Runtime.mkOrigin Sample.world
                        (<["widgets" := Runtime.json (Json.array [])]> ∅)))
    by reflexivity.
  split; [exact Hrun|].
  intros (error & after & Hthrows). rewrite Hrun in Hthrows. discriminate.
Qed.

(** ** Selling from the inventory *)

Lemma getProduct_id (pid : string) (product : Product.t) (ls : LocalStorage) :
  Store.getProduct pid ls = Some product → Product.id product = pid.
Proof.
  unfold Store.getProduct. intros Hget.
  destruct (list_find _ _) as [[i x]|] eqn:Hfind; [|done].
  apply list_find_Some in Hfind as (_ & Hid & _).
  simpl in Hget. by injection Hget as <-.
Qed.

Lemma list_find_insert_same {A} (P : A → Prop) `{∀ x, Decision (P x)}
    (l : list A) (i : nat) (x y : A) :
  list_find P l = Some (i, x) → P y → list_find P (<[i := y]> l) = Some (i, y).
Proof.
  intros Hfind Hy. apply list_find_Some in Hfind as (Hl & Hx & Hfirst).
  apply list_find_Some. split; [|split].
  - apply list_lookup_insert_eq. by eapply lookup_lt_Some.
  - done.
  - intros j z Hj Hlt. rewrite list_lookup_insert_ne in Hj by lia. eauto.
Qed.

(** Saving back a stored product whose quantity was changed. *)
Lemma save_product_quantity (product : Product.t) (q : Z) (w : World) :
  Product.id product ≠ "" →
  Store.getProduct (Product.id product) (localStorage w) = Some product →
  let w' := exec (Store.save (Known products) (Product.set_quantity q product)) w in
  Store.getProduct (Product.id product) (localStorage w')
    = Some (Product.set_quantity q product)
  ∧ length (Store.getProducts (localStorage w'))
    = length (Store.getProducts (localStorage w))
  ∧ (∀ k', k' ≠ Known products →
       Store.read k' (localStorage w') = Store.read k' (localStorage w))
  ∧ generated w' = generated w
  ∧ dateNow w' = dateNow w ∧ mathRandom w' = mathRandom w.
Proof.
  intros Hid Hget w'. subst w'. unfold exec.
  rewrite save_update by by apply truthy_true.
  unfold Store.getProduct, Store.getProducts in *. simpl in *.
  unfold Store.findIndex.
  destruct (list_find _ (ls_products _)) as [[i x]|] eqn:Hfind; [|done].
  simpl in Hget. injection Hget as ->. simpl.
  split; [|split; [|split; [|done]]].
  - by erewrite list_find_insert_same.
  - apply length_insert.
  - intros k' Hne. by destruct k' as [[]|].
Qed.

Lemma nextId_same (w w' : World) :
  generated w' = generated w → dateNow w' = dateNow w →
  mathRandom w' = mathRandom w → nextId w' = nextId w.
Proof.
  intros Hg Hd Hr. unfold nextId, eval, Store.generateId. simpl.
  by rewrite Hg, Hd, Hr.
Qed.


Lemma takeFromStock_enough (fd : SaleForm.t) (product : Product.t) (q : Z)
    (w : World) :
  SaleForm.productId fd = Product.id product → Product.id product ≠ "" →
  Store.getProduct (Product.id product) (localStorage w) = Some product →
  SaleForm.quantity fd = Some q → q ≤ Product.quantity product →
  App.takeFromStock false fd w =
  (true,
   exec (Store.save (Known products)
           (Product.set_quantity (Product.quantity product - q) product)) w).
Proof.
  intros Hpid Hid Hget Hq Hle. unfold App.takeFromStock.
  rewrite Hpid, Hq, (proj2 (truthy_true _) Hid). simpl.
  unfold bind at 1, App.store. simpl. rewrite Hget.
  rewrite bool_decide_eq_true_2 by lia. reflexivity.
Qed.

Lemma takeFromStock_short (fd : SaleForm.t) (product : Product.t) (q : Z)
    (w : World) :
  SaleForm.productId fd = Product.id product → Product.id product ≠ "" →
  Store.getProduct (Product.id product) (localStorage w) = Some product →
  SaleForm.quantity fd = Some q → Product.quantity product < q →
  App.takeFromStock false fd w = (false, w).
Proof.
  intros Hpid Hid Hget Hq Hlt. unfold App.takeFromStock.
  rewrite Hpid, Hq, (proj2 (truthy_true _) Hid). simpl.
  unfold bind at 1, App.store. simpl. rewrite Hget.
  rewrite bool_decide_eq_false_2 by lia. reflexivity.
Qed.

Lemma takeFromStock_manual (isEditing : bool) (fd : SaleForm.t) (w : World) :
  isEditing = true ∨ SaleForm.productId fd = "" →
  App.takeFromStock isEditing fd w = (true, w).
Proof.
  intros [->| Hpid]; unfold App.takeFromStock; [done|].
  rewrite Hpid. by destruct isEditing.
Qed.


Lemma recordSale_products (sale : option Sale.t) (fd : SaleForm.t) (w : World) :
  Store.getProducts (localStorage (exec (App.recordSale sale fd) w))
  = Store.getProducts (localStorage w).
Proof.
  unfold App.recordSale, Store.getProducts.
  destruct (negb _ && truthy _); rewrite exec_then_ret.
  - by apply (save_other_keys (Known transactions) (Known products)).
  - by apply (save_other_keys (Known sales) (Known products)).
Qed.

Lemma submitSale_in_stock (sale : option Sale.t) (fd : SaleForm.t)
    (w w1 : World) :
  App.takeFromStock (bool_decide (is_Some sale)) fd w = (true, w1) →
  App.submitSale sale fd w = (App.Rendered, exec (App.recordSale sale fd) w1).
Proof. intros Hstock. unfold App.submitSale, bind. by rewrite Hstock. Qed.

Lemma submitSale_out_of_stock (sale : option Sale.t) (fd : SaleForm.t)
    (w w1 : World) :
  App.takeFromStock (bool_decide (is_Some sale)) fd w = (false, w1) →
  App.submitSale sale fd w = (App.Alerted App.insufficientStock, w1).
Proof. intros Hstock. unfold App.submitSale, bind. by rewrite Hstock. Qed.

(** A name with a double quote in it reaches the form cut at the quote. *)
Example attributeValue_examples :
  App.attributeValue "Tornillos" = "Tornillos"
  ∧ App.attributeValue (Product.name Sample.tubo) = "Tubo 1/2"
  ∧ SelectOption.desc (App.productOption Sample.tubo) = Some "Tubo 1/2"
  ∧ App.literal (Product.name Sample.tubo) = true
  ∧ App.literal "Tuercas & arandelas" = false.
Proof. repeat split. Qed.




(** ** An expense paid to a creditor *)

Lemma submitExpense_new (fd : ExpenseForm.t) (w : World) :
  ExpenseForm.creditorId fd ≠ "" →
  let created := Expense.mk (nextId w) (ExpenseForm.date fd)
                   (ExpenseForm.amount fd) (ExpenseForm.category fd)
                   (ExpenseForm.description fd) (ExpenseForm.creditorId fd) in
  let payment := CreditorTransaction.mk (nextId (exec Store.generateId w))
                   (ExpenseForm.creditorId fd) (ExpenseForm.date fd)
                   (- Z.abs (ExpenseForm.amount fd))
                   ("Pago registrado desde gastos: " +:+ ExpenseForm.description fd) in
  localStorage (exec (App.submitExpense None fd) w) =
  Store.write (Known creditorTransactions)
    (Store.read (Known creditorTransactions) (localStorage w) ++ [payment])
    (Store.write (Known expenses)
       (Store.read (Known expenses) (localStorage w) ++ [created])
       (localStorage w)).
Proof.
  intros Hcreditor created payment. subst created payment.
  unfold App.submitExpense.
  change (bool_decide (is_Some (@None Expense.t))) with false.
  rewrite (proj2 (truthy_true _) Hcreditor). reflexivity.
Qed.

Lemma submitExpense_edit (e : Expense.t) (fd : ExpenseForm.t) (w : World) :
  Store.read (Known creditorTransactions)
    (localStorage (exec (App.submitExpense (Some e) fd) w))
  = Store.read (Known creditorTransactions) (localStorage w).
Proof.
  unfold App.submitExpense.
  assert (bool_decide (is_Some (Some e)) = true) as ->
    by by apply bool_decide_eq_true.
  rewrite andb_false_r, !exec_bind. unfold exec at 1 2, ret. cbn [snd].
  by apply (save_other_keys (Known expenses) (Known creditorTransactions)).
Qed.

(** C4.  Submitting the form of a new expense that carries a creditor
    appends the expense and exactly one creditor transaction, for that
    creditor, with amount [-|amount|].  Submitting the form of an existing
    expense, the one just created or any other, leaves the creditor
    transactions as they are. *)
Theorem expense_creates_one_creditor_payment (fd : ExpenseForm.t) (w : World) :
  let ls := localStorage w in
  let w1 := exec (App.submitExpense None fd) w in
  let created := Expense.mk (nextId w) (ExpenseForm.date fd)
                   (ExpenseForm.amount fd) (ExpenseForm.category fd)
                   (ExpenseForm.description fd) (ExpenseForm.creditorId fd) in
  (ExpenseForm.creditorId fd ≠ "" →
     Store.read (Known expenses) (localStorage w1)
       = Store.read (Known expenses) ls ++ [created]
     ∧ Store.read (Known creditorTransactions) (localStorage w1)
       = Store.read (Known creditorTransactions) ls ++
         [CreditorTransaction.mk (nextId (exec Store.generateId w))
            (ExpenseForm.creditorId fd) (ExpenseForm.date fd)
            (- Z.abs (ExpenseForm.amount fd))
            ("Pago registrado desde gastos: " +:+ ExpenseForm.description fd)]
     ∧ ∀ edited : ExpenseForm.t,
         Store.read (Known creditorTransactions)
           (localStorage (exec (App.submitExpense (Some created) edited) w1))
         = Store.read (Known creditorTransactions) (localStorage w1))
  ∧ (∀ (e : Expense.t) (edited : ExpenseForm.t),
       Store.read (Known creditorTransactions)
         (localStorage (exec (App.submitExpense (Some e) edited) w))
       = Store.read (Known creditorTransactions) ls).
Proof.
  intros ls w1 created. subst ls w1 created. split.
  - intros Hcreditor.
    split; [by rewrite submitExpense_new|].
    split; [by rewrite submitExpense_new|].
    intros edited. apply submitExpense_edit.
  - intros e edited. apply submitExpense_edit.
Qed.

Lemma expense_creates_one_creditor_payment_witness :
  let fd := ExpenseForm.mk "k1" 100 "insumos" "cemento" "2024-03-11" in
  Store.read (Known creditorTransactions)
    (localStorage (exec (App.submitExpense None fd) Sample.world))
  = [Sample.compra;
     CreditorTransaction.mk "loyw3v294fzzzxjylrx" "k1" "2024-03-11" (-100)
       "Pago registrado desde gastos: cemento"].
Proof.
  intros fd.
  destruct (expense_creates_one_creditor_payment fd Sample.world)
    as [Hnew _].
  destruct Hnew as (_ & Hpayment & _); [discriminate|].
  exact Hpayment.
Defined.

(** ** A purchase that brings products in *)





(** ** The scenarios of the specification *)

Example ana_scenario :
  eval Sample.anaScenario Sample.fresh = (0, 50000, 30000, [], []).
Proof. reflexivity. Qed.

Example tornillos_scenario :
  eval Sample.tornillosScenario Sample.fresh =
  (App.Rendered, Some 7,
   [Sale.mk "loyw3v294fzzzxjylrx" "2024-03-10" 1500 "Tornillos"],
   App.Alerted App.insufficientStock, Some 7).
Proof. reflexivity. Qed.

(** * Further properties of the store *)

(** ** Lookups by id *)

Lemma getters_are_findById (id : string) (ls : LocalStorage) :
  Store.getClient id ls = findById (Known clients) id ls
  ∧ Store.getSale id ls = findById (Known sales) id ls
  ∧ Store.getExpense id ls = findById (Known expenses) id ls
  ∧ Store.getTransaction id ls = findById (Known transactions) id ls
  ∧ Store.getProduct id ls = findById (Known products) id ls
  ∧ Store.getCreditor id ls = findById (Known creditors) id ls
  ∧ Store.getCreditorTransaction id ls
    = findById (Known creditorTransactions) id ls.
Proof. repeat split. Qed.

Lemma list_find_snoc_fresh {A} (P : A → Prop) `{∀ x, Decision (P x)}
    (l : list A) (y : A) :
  (∀ x, x ∈ l → ¬ P x) → P y → list_find P (l ++ [y]) = Some (length l, y).
Proof.
  intros Hno Hy. apply list_find_Some. split; [|split].
  - by rewrite lookup_app_r, Nat.sub_diag.
  - done.
  - intros j z Hj Hlt. rewrite lookup_app_l in Hj by done.
    apply Hno. by eapply list_elem_of_lookup_2.
Qed.

Lemma list_find_snoc_other {A} (P : A → Prop) `{∀ x, Decision (P x)}
    (l : list A) (y : A) :
  ¬ P y → snd <$> list_find P (l ++ [y]) = snd <$> list_find P l.
Proof.
  intros Hy. induction l as [|x l IH]; simpl.
  - by rewrite decide_False.
  - destruct (decide (P x)); [done|].
    destruct (list_find P (l ++ [y])) as [[i a]|],
             (list_find P l) as [[j b]|]; simpl in *; congruence.
Qed.

Lemma list_find_insert_other {A} (P : A → Prop) `{∀ x, Decision (P x)}
    (l : list A) (i : nat) (x y : A) :
  l !! i = Some x → ¬ P x → ¬ P y →
  list_find P (<[i := y]> l) = list_find P l.
Proof.
  revert i. induction l as [|a l IH]; intros i Hl Hx Hy; [done|].
  destruct i as [|i]; simpl in *.
  - injection Hl as ->. by rewrite !decide_False.
  - destruct (decide (P a)); [done|]. by rewrite (IH i).
Qed.

Lemma list_find_filter {A} (P Q : A → Prop)
    `{∀ x, Decision (P x)} `{∀ x, Decision (Q x)} (l : list A) :
  (∀ x, P x → Q x) →
  snd <$> list_find P (filter Q l) = snd <$> list_find P l.
Proof.
  intros HPQ. induction l as [|a l IH]; [done|].
  rewrite filter_cons. destruct (decide (Q a)) as [Hq|Hq]; simpl.
  - destruct (decide (P a)); [done|].
    destruct (list_find P (filter Q l)) as [[i x]|],
             (list_find P l) as [[j y]|]; simpl in *; congruence.
  - rewrite decide_False by (intros Hp; apply Hq, HPQ, Hp).
    rewrite IH. by destruct (list_find P l) as [[j y]|].
Qed.

Lemma save_update_read (k : StorageKey) (item : entity k) (w : World) :
  idOf item ≠ "" →
  Store.read k (localStorage (exec (Store.save k item) w))
  = match list_find (λ i, idOf i = idOf item) (Store.read k (localStorage w)) with
    | Some (index, _) => <[index := item]> (Store.read k (localStorage w))
    | None => Store.read k (localStorage w)
    end.
Proof.
  intros Hid. unfold exec. rewrite save_update by by apply truthy_true.
  simpl. rewrite read_write_same. unfold Store.findIndex.
  by destruct (list_find _ _) as [[i x]|].
Qed.

Lemma save_eval (k : StorageKey) (item : entity k) (w : World) :
  eval (Store.save k item) w
  = if truthy (idOf item) then item else setId (nextId w) item.
Proof.
  unfold eval. destruct (truthy (idOf item)) eqn:Hid.
  - by rewrite save_update.
  - by rewrite save_create.
Qed.

Lemma lookup_after_save_update (k : StorageKey) (item : entity k) (w : World) :
  idOf item ≠ "" →
  is_Some (findById k (idOf item) (localStorage w)) →
  findById k (idOf item) (localStorage (exec (Store.save k item) w)) = Some item.
Proof.
  intros Hid [old Hold]. unfold findById in *.
  rewrite save_update_read by done.
  destruct (list_find _ _) as [[i x]|] eqn:Hfind; [|done].
  by rewrite (list_find_insert_same _ _ i x item Hfind).
Qed.

Lemma ids_after_update (k : StorageKey) (item : entity k) (w : World) :
  idOf item ≠ "" →
  idsOf k (localStorage (exec (Store.save k item) w)) = idsOf k (localStorage w).
Proof.
  intros Hid. unfold idsOf. rewrite save_update_read by done.
  destruct (list_find _ _) as [[i old]|] eqn:Hfind; [|done].
  apply list_find_Some in Hfind as (Hl & Hold & _).
  rewrite list_fmap_insert. apply list_insert_id.
  by rewrite list_lookup_fmap, Hl, <- Hold.
Qed.

(** X1.  What [save] stored is what the lookup by id returns.  A record
    created with an id that no record of the collection carries is found
    under the id it received; a record saved over an existing id is found
    under that id; and the lookup of every other id answers as before. *)
Theorem lookup_after_save (k : StorageKey) (item : entity k) (w : World) :
  let saved := eval (Store.save k item) w in
  let ls := localStorage w in
  let ls' := localStorage (exec (Store.save k item) w) in
  (idOf item = "" →
   (∀ x, x ∈ Store.read k ls → idOf x ≠ nextId w) →
   findById k (idOf saved) ls' = Some saved)
  ∧ (idOf item ≠ "" → is_Some (findById k (idOf item) ls) →
     findById k (idOf item) ls' = Some item)
  ∧ (∀ id', id' ≠ idOf saved → findById k id' ls' = findById k id' ls).
Proof.
  intros saved ls ls'. subst saved ls ls'. rewrite save_eval.
  unfold findById. split; [|split].
  - intros Hid Hfresh.
    rewrite (proj2 (truthy_false _) Hid), save_create_read by done.
    rewrite idOf_setId.
    by rewrite (list_find_snoc_fresh _ _ (setId (nextId w) item))
      by (done || apply idOf_setId).
  - intros Hid [old Hold].
    rewrite save_update_read by done.
    destruct (list_find _ _) as [[i x]|] eqn:Hfind; [|done].
    by rewrite (list_find_insert_same _ _ i x item Hfind).
  - intros id' Hne.
    destruct (truthy (idOf item)) eqn:Hid.
    + apply truthy_true in Hid. rewrite save_update_read by done.
      destruct (list_find (λ i, idOf i = idOf item) _) as [[i x]|] eqn:Hfind;
        [|done].
      apply list_find_Some in Hfind as (Hl & Hx & _).
      rewrite (list_find_insert_other _ _ i x item); [done|done|..];
        congruence.
    + apply truthy_false in Hid. rewrite save_create_read by done.
      apply list_find_snoc_other. rewrite idOf_setId in *. congruence.
Qed.

Lemma lookup_after_save_witness :
  findById (Known transactions) "loyw3v284fzzzxjylrx"
    (localStorage (exec (Store.save (Known transactions) Sample.nuevo)
                     Sample.world))
  = Some (Transaction.set_id "loyw3v284fzzzxjylrx" Sample.nuevo)
  ∧ findById (Known transactions) "t2"
      (localStorage (exec (Store.save (Known transactions) Sample.pagoEdited)
                       Sample.world))
    = Some Sample.pagoEdited.
Proof.
  split.
  - apply (lookup_after_save (Known transactions) Sample.nuevo Sample.world);
      [reflexivity|].
    intros x Hx. simpl in Hx.
    repeat (apply elem_of_cons in Hx as [->|Hx]; [discriminate|]).
    by apply elem_of_nil in Hx.
  - apply (lookup_after_save (Known transactions) Sample.pagoEdited
             Sample.world); [discriminate|].
    by exists Sample.pago.
Defined.

(** ** More on [delete] *)

Lemma delete_read_same (k : StorageKey) (id : string) (w : World) :
  Store.read k (localStorage (exec (Store.delete k id) w))
  = filter (λ item, idOf item ≠ id) (Store.read k (localStorage w)).
Proof.
  destruct k as [[]|name]; try reflexivity.
  unfold exec, Store.delete, bind, Store.get, Store.set, ret.
  rewrite (decide_False (P := Unknown name = Known clients)) by discriminate.
  rewrite (decide_False (P := Unknown name = Known creditors)) by discriminate.
  cbn [fst snd localStorage Store.read Store.write ls_other].
  by rewrite lookup_insert_eq.
Qed.

Lemma delete_read_other (k k' : StorageKey) (id : string) (w : World) :
  k' ≠ k →
  ¬ (k = Known clients ∧ k' = Known transactions) →
  ¬ (k = Known creditors ∧ k' = Known creditorTransactions) →
  Store.read k' (localStorage (exec (Store.delete k id) w))
  = Store.read k' (localStorage w).
Proof.
  intros Hne Hc Hk.
  destruct k as [[]|name], k' as [[]|name']; try reflexivity;
    try congruence; try (exfalso; apply Hc; by split);
    try (exfalso; apply Hk; by split).
  unfold exec, Store.delete, bind, Store.get, Store.set, ret.
  rewrite (decide_False (P := Unknown name = Known clients)) by discriminate.
  rewrite (decide_False (P := Unknown name = Known creditors)) by discriminate.
  cbn [fst snd localStorage Store.read Store.write ls_other].
  rewrite lookup_insert_ne; [done|congruence].
Qed.

Lemma delete_clients_transactions (id : string) (w : World) :
  Store.read (Known transactions)
    (localStorage (exec (Store.delete (Known clients) id) w))
  = filter (λ t, Transaction.clientId t ≠ id)
      (Store.read (Known transactions) (localStorage w)).
Proof. reflexivity. Qed.

Lemma delete_creditors_transactions (id : string) (w : World) :
  Store.read (Known creditorTransactions)
    (localStorage (exec (Store.delete (Known creditors) id) w))
  = filter (λ t, CreditorTransaction.creditorId t ≠ id)
      (Store.read (Known creditorTransactions) (localStorage w)).
Proof. reflexivity. Qed.

Lemma filter_idemp {A} (P : A → Prop) `{∀ x, Decision (P x)} (l : list A) :
  filter P (filter P l) = filter P l.
Proof.
  induction l as [|a l IH]; [done|].
  rewrite filter_cons. destruct (decide (P a)) as [Hp|Hp]; [|done].
  by rewrite filter_cons_True, IH.
Qed.

Lemma filter_all {A} (P : A → Prop) `{∀ x, Decision (P x)} (l : list A) :
  (∀ x, x ∈ l → P x) → filter P l = l.
Proof.
  induction l as [|a l IH]; intros Hall; [done|].
  rewrite filter_cons_True by (apply Hall; left).
  f_equal. apply IH. intros x Hx. apply Hall. by right.
Qed.

Lemma lookup_after_delete_none (k : StorageKey) (id : string) (w : World) :
  findById k id (localStorage (exec (Store.delete k id) w)) = None.
Proof.
  unfold findById. rewrite delete_read_same.
  assert (list_find (λ x : entity k, idOf x = id)
            (filter (λ item, idOf item ≠ id)
               (Store.read k (localStorage w))) = None) as ->; [|done].
  apply list_find_None, Forall_forall. intros x Hx.
  by apply list_elem_of_filter in Hx as [Hne _].
Qed.

(** X2.  After [delete(type, id)] the lookup of [id] in that collection
    finds nothing, and the lookup of any other id answers as before. *)
Theorem lookup_after_delete (k : StorageKey) (id : string) (w : World) :
  let ls' := localStorage (exec (Store.delete k id) w) in
  findById k id ls' = None
  ∧ (∀ id', id' ≠ id → findById k id' ls' = findById k id' (localStorage w)).
Proof.
  intros ls'. subst ls'. split; [apply lookup_after_delete_none|].
  intros id' Hne. unfold findById. rewrite delete_read_same.
  apply list_find_filter. congruence.
Qed.

Lemma lookup_after_delete_witness :
  findById (Known transactions) "t1"
    (localStorage (exec (Store.delete (Known transactions) "t2") Sample.world))
  = Some Sample.prestamo.
Proof.
  destruct (lookup_after_delete (Known transactions) "t2" Sample.world)
    as [_ Hother].
  etrans; [apply Hother; discriminate|reflexivity].
Defined.

(** X3.  [delete] is idempotent: a second [delete] of the same type
    and id changes no collection. *)
Theorem delete_twice (k : StorageKey) (id : string) (w : World) :
  ∀ k',
    Store.read k'
      (localStorage (exec (Store.delete k id) (exec (Store.delete k id) w)))
    = Store.read k' (localStorage (exec (Store.delete k id) w)).
Proof.
  intros k'. destruct (decide (k' = k)) as [->|Hne].
  - rewrite delete_read_same. rewrite delete_read_same. apply filter_idemp.
  - destruct (decide (k = Known clients ∧ k' = Known transactions))
      as [[-> ->]|Hc].
    { rewrite !delete_clients_transactions. apply filter_idemp. }
    destruct (decide (k = Known creditors ∧ k' = Known creditorTransactions))
      as [[-> ->]|Hk].
    { rewrite !delete_creditors_transactions. apply filter_idemp. }
    by rewrite delete_read_other.
Qed.

(** X4.  A [delete] of an id that no record of the collection carries is
    a silent no-op on every collection, except that for clients and
    creditors the cascade still runs: it is a no-op when moreover no
    transaction refers to the id. *)
Theorem delete_missing_id (k : StorageKey) (id : string) (w : World) :
  let ls := localStorage w in
  (∀ x, x ∈ Store.read k ls → idOf x ≠ id) →
  (k = Known clients →
   ∀ t, t ∈ Store.read (Known transactions) ls → Transaction.clientId t ≠ id) →
  (k = Known creditors →
   ∀ t, t ∈ Store.read (Known creditorTransactions) ls →
        CreditorTransaction.creditorId t ≠ id) →
  ∀ k', Store.read k' (localStorage (exec (Store.delete k id) w))
        = Store.read k' ls.
Proof.
  intros ls Hno Hclients Hcreditors k'. subst ls.
  destruct (decide (k' = k)) as [->|Hne].
  - rewrite delete_read_same. by apply filter_all.
  - destruct (decide (k = Known clients ∧ k' = Known transactions))
      as [[-> ->]|Hc].
    { rewrite delete_clients_transactions. apply filter_all. auto. }
    destruct (decide (k = Known creditors ∧ k' = Known creditorTransactions))
      as [[-> ->]|Hk].
    { rewrite delete_creditors_transactions. apply filter_all. auto. }
    by rewrite delete_read_other.
Qed.

Lemma delete_missing_id_witness :
  Store.read (Known transactions)
    (localStorage (exec (Store.delete (Known clients) "c9") Sample.world))
  = Store.read (Known transactions) Sample.storage.
Proof.
  apply (delete_missing_id (Known clients) "c9" Sample.world).
  - intros x Hx. simpl in Hx.
    repeat (apply elem_of_cons in Hx as [->|Hx]; [discriminate|]).
    by apply elem_of_nil in Hx.
  - intros _ t Ht. simpl in Ht.
    repeat (apply elem_of_cons in Ht as [->|Ht]; [discriminate|]).
    by apply elem_of_nil in Ht.
  - discriminate.
Defined.

(** ** Balances under [delete] *)



Lemma filter_filter_comm {A} (P Q : A → Prop)
    `{∀ x, Decision (P x)} `{∀ x, Decision (Q x)} (l : list A) :
  filter P (filter Q l) = filter Q (filter P l).
Proof.
  induction l as [|a l IH]; [done|].
  rewrite (filter_cons Q), (filter_cons P).
  destruct (decide (Q a)) as [Hq|Hq], (decide (P a)) as [Hp|Hp];
    rewrite ?filter_cons_True, ?filter_cons_False by done; by rewrite IH.
Qed.

(** X5.  Deleting a transaction touches the ledger of its client only.
    The clients stay as they are; the transactions of each client are those
    it had, in the same order, without the records of the deleted id; and a
    client none of whose transactions carries that id keeps its
    transactions, and with them its balance, in exact arithmetic and in the
    doubles of the code alike. *)
Theorem balance_after_transaction_delete (tid c : string) (w : World) :
  let ls := localStorage w in
  let ls' := localStorage (exec (Store.delete (Known transactions) tid) w) in
  Store.getClients ls' = Store.getClients ls
  ∧ Store.getTransactionsForClient c ls'
    = filter (λ t, Transaction.id t ≠ tid) (Store.getTransactionsForClient c ls)
  ∧ ((∀ t, t ∈ Store.getTransactionsForClient c ls → Transaction.id t ≠ tid) →
     Store.getTransactionsForClient c ls' = Store.getTransactionsForClient c ls
     ∧ Store.getClientBalance c ls' = Store.getClientBalance c ls
     ∧ Double.getClientBalance c ls' = Double.getClientBalance c ls).
Proof.
  intros ls ls'. subst ls ls'. split; [reflexivity|].
  assert (Hlist :
    Store.getTransactionsForClient c
      (localStorage (exec (Store.delete (Known transactions) tid) w))
    = filter (λ t, Transaction.id t ≠ tid)
        (Store.getTransactionsForClient c (localStorage w))).
  { unfold Store.getTransactionsForClient.
    rewrite (delete_read_same (Known transactions)).
    apply (filter_filter_comm (λ t, Transaction.clientId t = c)). }
  split; [exact Hlist|]. intros Hnone.
  assert (Hsame :
    Store.getTransactionsForClient c
      (localStorage (exec (Store.delete (Known transactions) tid) w))
    = Store.getTransactionsForClient c (localStorage w)).
  { rewrite Hlist. by apply filter_all. }
  split; [exact Hsame|].
  unfold Store.getClientBalance, Double.getClientBalance, Double.balance.
  by rewrite Hsame.
Qed.

Lemma balance_after_transaction_delete_witness :
  Store.getTransactionsForClient "c2"
    (localStorage (exec (Store.delete (Known transactions) "t2") Sample.world))
  = [Sample.abono]
  ∧ Double.getClientBalance "c2"
      (localStorage (exec (Store.delete (Known transactions) "t2") Sample.world))
    = Number.ofZ (-700).
Proof.
  destruct (balance_after_transaction_delete "t2" "c2" Sample.world)
    as (_ & _ & Hkeep).
  destruct Hkeep as (Hlist & _ & Hdouble).
  - intros t Ht. simpl in Ht.
    apply list_elem_of_singleton in Ht as ->. discriminate.
  - split; [rewrite Hlist; reflexivity|].
    rewrite Hdouble. reflexivity.
Defined.



(** ** The creditor ledger *)





(** ** Invariants of the collections *)

Lemma elem_of_insert_inv {A} (l : list A) (i : nat) (x y : A) :
  y ∈ <[i := x]> l → y = x ∨ y ∈ l.
Proof.
  intros Hy. apply list_elem_of_lookup in Hy as [j Hj].
  apply list_lookup_insert_Some in Hj as [(_ & -> & _)|[_ Hj]]; [by left|].
  right. by eapply list_elem_of_lookup_2.
Qed.

Lemma save_read_elem (k : StorageKey) (item : entity k) (w : World) (x : entity k) :
  x ∈ Store.read k (localStorage (exec (Store.save k item) w)) →
  x = eval (Store.save k item) w ∨ x ∈ Store.read k (localStorage w).
Proof.
  rewrite save_eval. destruct (truthy (idOf item)) eqn:Hid.
  - apply truthy_true in Hid. rewrite save_update_read by done.
    destruct (list_find _ _) as [[i old]|]; [|by right].
    apply elem_of_insert_inv.
  - apply truthy_false in Hid. rewrite save_create_read by done.
    intros Hx. apply elem_of_app in Hx as [Hx|Hx]; [by right|].
    apply list_elem_of_singleton in Hx. by left.
Qed.

Lemma delete_read_elem (k k' : StorageKey) (id : string) (w : World)
    (x : entity k') :
  x ∈ Store.read k' (localStorage (exec (Store.delete k id) w)) →
  x ∈ Store.read k' (localStorage w).
Proof.
  destruct (decide (k' = k)) as [->|Hne].
  { rewrite delete_read_same. intros Hx.
    by apply list_elem_of_filter in Hx as [_ Hx]. }
  destruct (decide (k = Known clients ∧ k' = Known transactions))
    as [[-> ->]|Hc].
  { rewrite delete_clients_transactions. intros Hx.
    by apply list_elem_of_filter in Hx as [_ Hx]. }
  destruct (decide (k = Known creditors ∧ k' = Known creditorTransactions))
    as [[-> ->]|Hk].
  { rewrite delete_creditors_transactions. intros Hx.
    by apply list_elem_of_filter in Hx as [_ Hx]. }
  by rewrite delete_read_other.
Qed.

(** X8.  If every stored record carries a non-empty id, so it is after
    any [save] and after any [delete]: the store never leaves a record
    without an id behind. *)
Theorem ids_stay_set (w : World) :
  identified (localStorage w) →
  (∀ (k : StorageKey) (item : entity k),
     identified (localStorage (exec (Store.save k item) w)))
  ∧ (∀ (k : StorageKey) (id : string),
       identified (localStorage (exec (Store.delete k id) w))).
Proof.
  intros Hids. split.
  - intros k item k' x Hx.
    destruct (decide (k' = k)) as [->|Hne].
    + apply save_read_elem in Hx as [->|Hx]; [|by eapply Hids].
      rewrite save_eval. destruct (truthy (idOf item)) eqn:Hid.
      * by apply truthy_true.
      * rewrite idOf_setId. apply truthy_true, nextId_truthy.
    + rewrite save_other_keys in Hx by done. by eapply Hids.
  - intros k id k' x Hx. apply delete_read_elem in Hx. by eapply Hids.
Qed.

Lemma sample_identified : identified Sample.storage.
Proof.
  intros k x Hx.
  destruct k as [[]|name]; simpl in Hx;
    repeat (apply elem_of_cons in Hx as [->|Hx]; [discriminate|]);
    by apply elem_of_nil in Hx.
Defined.

Lemma ids_stay_set_witness :
  identified
    (localStorage (exec (Store.save (Known transactions) Sample.nuevo)
                     Sample.world))
  ∧ identified
      (localStorage (exec (Store.delete (Known clients) "c1") Sample.world)).
Proof.
  destruct (ids_stay_set Sample.world sample_identified) as [Hsave Hdelete].
  split; [apply Hsave | apply Hdelete].
Defined.

(** X9.  [save] over an existing id leaves the list of the ids of the
    collection exactly as it was.  If the ids of a collection are pairwise
    distinct they remain so after a [delete], after a [save] with a set id,
    and after a [save] that creates a record provided the generated id is
    not yet in the collection. *)
Theorem ids_stay_distinct (k : StorageKey) (w : World) :
  let ls := localStorage w in
  (∀ item : entity k,
     idOf item ≠ "" →
     idsOf k (localStorage (exec (Store.save k item) w)) = idsOf k ls)
  ∧ (NoDup (idsOf k ls) →
     (∀ item : entity k,
        (idOf item = "" → nextId w ∉ idsOf k ls) →
        NoDup (idsOf k (localStorage (exec (Store.save k item) w))))
     ∧ (∀ (k0 : StorageKey) (id : string),
          NoDup (idsOf k (localStorage (exec (Store.delete k0 id) w))))).
Proof.
  intros ls. subst ls.
  assert (Hupdate : ∀ item : entity k, idOf item ≠ "" →
            idsOf k (localStorage (exec (Store.save k item) w))
            = idsOf k (localStorage w)).
  { intros item Hid. unfold idsOf. rewrite save_update_read by done.
    destruct (list_find _ _) as [[i old]|] eqn:Hfind; [|done].
    apply list_find_Some in Hfind as (Hl & Hold & _).
    rewrite list_fmap_insert. apply list_insert_id.
    by rewrite list_lookup_fmap, Hl, <- Hold. }
  split; [exact Hupdate|]. intros Hnodup. split.
  - intros item Hfresh. destruct (decide (idOf item = "")) as [Hid|Hid].
    + unfold idsOf. rewrite save_create_read, fmap_app by done.
      apply NoDup_app. split; [done|]. split; [|apply NoDup_singleton].
      intros x Hx Hin. apply list_elem_of_singleton in Hin.
      rewrite idOf_setId in Hin. subst x. by apply Hfresh.
    + by rewrite Hupdate.
  - intros k0 id. apply (sublist_NoDup _ (idsOf k (localStorage w))); [done|].
    unfold idsOf. apply fmap_sublist.
    destruct (decide (k = k0)) as [->|Hne].
    { rewrite delete_read_same. apply sublist_filter. }
    destruct (decide (k0 = Known clients ∧ k = Known transactions))
      as [[-> ->]|Hc].
    { rewrite delete_clients_transactions. apply sublist_filter. }
    destruct (decide (k0 = Known creditors ∧ k = Known creditorTransactions))
      as [[-> ->]|Hk].
    { rewrite delete_creditors_transactions. apply sublist_filter. }
    by rewrite delete_read_other.
Qed.

Lemma ids_stay_distinct_witness :
  idsOf (Known transactions)
    (localStorage (exec (Store.save (Known transactions) Sample.pagoEdited)
                     Sample.world))
  = ["t1"; "t2"; "t3"]
  ∧ NoDup
      (idsOf (Known transactions)
         (localStorage (exec (Store.save (Known transactions) Sample.nuevo)
                          Sample.world))).
Proof.
  destruct (ids_stay_distinct (Known transactions) Sample.world)
    as [Hupdate Hnodup].
  split.
  - rewrite Hupdate by discriminate. reflexivity.
  - destruct Hnodup as [Hsave _].
    + by apply (bool_decide_unpack _).
    + apply Hsave. intros _ Hin.
      vm_compute (nextId Sample.world) in Hin. unfold idsOf in Hin.
      simpl in Hin.
      repeat (apply elem_of_cons in Hin as [Hin|Hin]; [discriminate|]).
      by apply elem_of_nil in Hin.
Defined.

(** * Properties of the pages *)

(** ** What [render] shows *)

Lemma saleMonthShown_stable (st : App.State) (ls : LocalStorage) (st' : App.State) :
  App.currentSaleMonth st' = App.saleMonthShown st ls →
  App.saleMonthShown st' ls = App.saleMonthShown st ls.
Proof.
  intros Hst'. unfold App.saleMonthShown at 1. rewrite Hst'.
  unfold App.saleMonthShown.
  destruct (bool_decide (App.currentSaleMonth st ≠ "all")) eqn:Hall; simpl.
  - destruct (bool_decide (App.currentSaleMonth st ∈ App.saleMonths ls)) eqn:Hin;
      simpl; [|done].
    by rewrite Hall, Hin.
  - by rewrite Hall.
Qed.

Lemma expenseMonthShown_stable (st : App.State) (ls : LocalStorage)
    (st' : App.State) :
  App.currentExpenseMonth st' = App.expenseMonthShown st ls →
  App.expenseMonthShown st' ls = App.expenseMonthShown st ls.
Proof.
  intros Hst'. unfold App.expenseMonthShown at 1. rewrite Hst'.
  unfold App.expenseMonthShown.
  destruct (bool_decide (App.currentExpenseMonth st ≠ "all")) eqn:Hall; simpl.
  - destruct (bool_decide (App.currentExpenseMonth st ∈ App.expenseMonths ls))
      eqn:Hin; simpl; [|done].
    by rewrite Hall, Hin.
  - by rewrite Hall.
Qed.

Lemma renderPage_spec (st : App.State) (ls : LocalStorage) :
  let shown := App.renderPage st ls in
  (∀ id, shown.1 ≠ App.ClientDetailView id)
  ∧ (∀ id, shown.1 ≠ App.CreditorDetailView id)
  ∧ App.currentPage shown.2 = App.currentPage st
  ∧ App.currentClientId shown.2 = App.currentClientId st
  ∧ App.currentCreditorId shown.2 = App.currentCreditorId st
  ∧ App.renderPage shown.2 ls = shown.
Proof.
  unfold App.renderPage. destruct (App.currentPage st) eqn:Hpage; simpl;
    rewrite ?Hpage; repeat split; try done.
  - by rewrite (saleMonthShown_stable st ls).
  - by rewrite (expenseMonthShown_stable st ls).
Qed.

Lemma renderFromCreditor_spec (st : App.State) (ls : LocalStorage) :
  let shown := App.renderFromCreditor st ls in
  (∀ id, shown.1 ≠ App.ClientDetailView id)
  ∧ (∀ id, shown.1 = App.CreditorDetailView id →
           id ≠ "" ∧ is_Some (Store.getCreditor id ls)
           ∧ App.currentCreditorId shown.2 = id)
  ∧ App.currentPage shown.2 = App.currentPage st
  ∧ App.currentClientId shown.2 = App.currentClientId st
  ∧ App.renderFromCreditor shown.2 ls = shown.
Proof.
  unfold App.renderFromCreditor.
  destruct (truthy (App.currentCreditorId st)) eqn:Hid.
  - destruct (Store.getCreditor (App.currentCreditorId st) ls) eqn:Hget.
    + simpl. rewrite Hid, Hget.
      split; [done|]. split; [|done].
      intros id [= <-]. split; [by apply truthy_true|done].
    + destruct (renderPage_spec (App.clearCreditor st) ls)
        as (Hc & Hk & Hp & Hci & Hki & Hstable).
      cbv zeta in *. split; [done|]. split; [|split; [done|split; [done|]]].
      * intros id Hv. by destruct (Hk id).
      * rewrite Hki. simpl. exact Hstable.
  - destruct (renderPage_spec st ls) as (Hc & Hk & Hp & Hci & Hki & Hstable).
    cbv zeta in *. split; [done|]. split; [|split; [done|split; [done|]]].
    + intros id Hv. by destruct (Hk id).
    + by rewrite Hki, Hid.
Qed.

Lemma renderPage_selection (st : App.State) (ls : LocalStorage) :
  (App.renderPage st ls).1 = viewOfPage (App.currentPage (App.renderPage st ls).2)
  ∧ App.currentClientId (App.renderPage st ls).2 = App.currentClientId st
  ∧ App.currentCreditorId (App.renderPage st ls).2 = App.currentCreditorId st.
Proof.
  unfold App.renderPage.
  destruct (App.currentPage st) eqn:Hp; simpl; by rewrite ?Hp.
Qed.


(** X10.  [render] never shows the detail page of a client or of a
    creditor that is not in the store: a detail page is shown only for a
    non-empty id that the store finds, and that id is then the current
    selection.  [render] never changes [currentPage], and rendering again
    shows the same page and leaves the same state. *)
Theorem render_shows_stored_selection (st : App.State) (ls : LocalStorage) :
  let shown := App.render st ls in
  (∀ id, shown.1 = App.ClientDetailView id →
         id ≠ "" ∧ is_Some (Store.getClient id ls)
         ∧ App.currentClientId shown.2 = id)
  ∧ (∀ id, shown.1 = App.CreditorDetailView id →
           id ≠ "" ∧ is_Some (Store.getCreditor id ls)
           ∧ App.currentCreditorId shown.2 = id
           ∧ App.currentClientId shown.2 = "")
  ∧ App.currentPage shown.2 = App.currentPage st
  ∧ App.render shown.2 ls = shown.
Proof.
  unfold App.render.
  destruct (truthy (App.currentClientId st)) eqn:Hid.
  - destruct (Store.getClient (App.currentClientId st) ls) eqn:Hget.
    + simpl. rewrite Hid, Hget.
      split; [|split; [done|done]].
      intros id [= <-]. split; [by apply truthy_true|done].
    + destruct (renderFromCreditor_spec (App.clearClient st) ls)
        as (Hc & Hk & Hp & Hci & Hstable).
      cbv zeta in *. split; [|split; [|split]].
      * intros id Hv. by destruct (Hc id).
      * intros id Hv. destruct (Hk id Hv) as (? & ? & ?). by rewrite Hci.
      * by rewrite Hp.
      * rewrite Hci. simpl. exact Hstable.
  - destruct (renderFromCreditor_spec st ls) as (Hc & Hk & Hp & Hci & Hstable).
    cbv zeta in *. apply truthy_false in Hid. split; [|split; [|split]].
    + intros id Hv. by destruct (Hc id).
    + intros id Hv. destruct (Hk id Hv) as (? & ? & ?). by rewrite Hci.
    + done.
    + rewrite Hci, (proj2 (truthy_false _) Hid). exact Hstable.
Qed.

Lemma render_shows_stored_selection_witness :
  is_Some (Store.getClient "c1" Sample.storage)
  ∧ (App.render
       (App.mkState Page.clients "c9" "" "all" "all" "all" "all")
       Sample.storage).1 = App.ClientsView.
Proof.
  split.
  - destruct (render_shows_stored_selection Sample.onAna Sample.storage)
      as (Hclient & _).
    by destruct (Hclient "c1" eq_refl) as (_ & Hstored & _).
  - reflexivity.
Defined.

(** ** The delete button *)

Lemma handleDeleteClick_confirmed (type id : string) (st : App.State) (w : World) :
  let w' := exec (Store.delete (keyOf (App.storeTypeOf type)) id) w in
  App.handleDeleteClick type id true st w
  = (Some (App.render st (localStorage w')), w').
Proof. reflexivity. Qed.

(** X11.  A delete click that the user does not confirm changes nothing
    and renders nothing.  The delete buttons of the pages reach the seven
    collections: [clients], [sales], [expenses], [products] and [creditors]
    under their own name, [transaction] the collection [transactions] and
    [creditorTransaction] the collection [creditorTransactions].  A
    confirmed click on any of them runs [delete] on that collection, never
    on an unknown key; afterwards the lookup of the id in the collection
    finds nothing, and the page shown is [render] on the new storage. *)
Theorem delete_button (type id : string) (st : App.State) (w : World) :
  App.handleDeleteClick type id false st w = (None, w)
  ∧ (keyOf (App.storeTypeOf "clients") = Known clients
     ∧ keyOf (App.storeTypeOf "transaction") = Known transactions
     ∧ keyOf (App.storeTypeOf "sales") = Known sales
     ∧ keyOf (App.storeTypeOf "expenses") = Known expenses
     ∧ keyOf (App.storeTypeOf "products") = Known products
     ∧ keyOf (App.storeTypeOf "creditors") = Known creditors
     ∧ keyOf (App.storeTypeOf "creditorTransaction")
       = Known creditorTransactions)
  ∧ (type ∈ deleteButtonTypes →
     ∃ ty : EntityType,
       keyOf (App.storeTypeOf type) = Known ty
       ∧ let w' := exec (App.handleDeleteClick type id true st) w in
         w' = exec (Store.delete (Known ty) id) w
         ∧ findById (Known ty) id (localStorage w') = None
         ∧ eval (App.handleDeleteClick type id true st) w
           = Some (App.render st (localStorage w'))).
Proof.
  split; [reflexivity|]. split; [by repeat split|]. intros Htype.
  assert (∃ ty, keyOf (App.storeTypeOf type) = Known ty) as [ty Hty].
  { unfold deleteButtonTypes in Htype.
    repeat (apply elem_of_cons in Htype as [->|Htype]; [by eexists|]).
    by apply elem_of_nil in Htype. }
  exists ty. split; [done|]. cbv zeta.
  unfold exec, eval. rewrite handleDeleteClick_confirmed. cbn [fst snd].
  rewrite Hty. split; [done|]. split; [|done].
  apply lookup_after_delete_none.
Qed.

Lemma delete_button_witness :
  exec (App.handleDeleteClick "transaction" "t2" true Sample.onAna) Sample.world
  = exec (Store.delete (Known transactions) "t2") Sample.world
  ∧ Store.getTransaction "t2"
      (localStorage
         (exec (App.handleDeleteClick "transaction" "t2" true Sample.onAna)
            Sample.world)) = None.
Proof.
  destruct (delete_button "transaction" "t2" Sample.onAna Sample.world)
    as (_ & (_ & Htable & _) & Hclick).
  destruct Hclick as (ty & Hty & Hrun & Hgone & _).
  - unfold deleteButtonTypes. apply elem_of_cons. right. apply elem_of_cons.
    by left.
  - rewrite Htable in Hty. injection Hty as <-.
    split; [exact Hrun | exact Hgone].
Defined.

(** X12.  Deleting the client whose detail page is open closes the
    page: after the confirmed click the client and its transactions are
    gone, the client selection is cleared and the page shown is not a
    client detail page. *)
Theorem delete_open_client (st : App.State) (w : World) :
  App.currentClientId st ≠ "" →
  let id := App.currentClientId st in
  let w' := exec (App.handleDeleteClick "clients" id true st) w in
  ∃ shown : App.View * App.State,
    eval (App.handleDeleteClick "clients" id true st) w = Some shown
    ∧ shown = App.renderFromCreditor (App.clearClient st) (localStorage w')
    ∧ (∀ other, shown.1 ≠ App.ClientDetailView other)
    ∧ App.currentClientId shown.2 = ""
    ∧ Store.getClient id (localStorage w') = None
    ∧ Store.getTransactionsForClient id (localStorage w') = [].
Proof.
  intros Hid id w'. subst id w'.
  unfold exec, eval. rewrite handleDeleteClick_confirmed. cbn [fst snd].
  change (keyOf (App.storeTypeOf "clients")) with (Known clients).
  set (w' := exec (Store.delete (Known clients) (App.currentClientId st)) w).
  assert (Hgone : Store.getClient (App.currentClientId st) (localStorage w') = None)
    by apply (lookup_after_delete_none (Known clients)).
  eexists. split; [reflexivity|].
  unfold App.render. rewrite (proj2 (truthy_true _) Hid), Hgone.
  destruct (renderFromCreditor_spec (App.clearClient st) (localStorage w'))
    as (Hc & _ & _ & Hci & _).
  cbv zeta in Hc, Hci.
  split; [reflexivity|]. split; [exact Hc|]. split; [by rewrite Hci|].
  split; [reflexivity|].
  subst w'. unfold Store.getTransactionsForClient.
  rewrite delete_clients_transactions.
  apply (filter_filter_complement
           (λ t, Transaction.clientId t = App.currentClientId st)).
Qed.

Lemma delete_open_client_witness :
  eval (App.handleDeleteClick "clients" "c1" true Sample.onAna) Sample.world
  = Some (App.ClientsView,
          App.mkState Page.clients "" "" "all" "all" "all" "all").
Proof.
  destruct (delete_open_client Sample.onAna Sample.world)
    as (shown & Heval & Hshown & _); [discriminate|].
  etrans; [exact Heval|]. rewrite Hshown. reflexivity.
Defined.

(** ** The filters of the client and creditor lists *)




(** ** The month selects of the sales and expenses pages *)

Lemma setOfFrom_elem (seen l : list string) (x : string) :
  x ∈ App.setOfFrom seen l ↔ x ∈ l ∧ x ∉ seen.
Proof.
  revert seen. induction l as [|a l IH]; intros seen; simpl.
  - split; [by intros ?%elem_of_nil | by intros [?%elem_of_nil _]].
  - destruct (decide (a ∈ seen)) as [Ha|Ha].
    + rewrite IH, elem_of_cons. split.
      * intros [Hx Hseen]. split; [by right|done].
      * intros [[->|Hx] Hseen]; [done|by split].
    + rewrite elem_of_cons, IH, !elem_of_cons. split.
      * intros [->|[Hx Hseen]]; [by split; [left|]|].
        split; [by right|]. intros Hin. apply Hseen. by right.
      * intros [[->|Hx] Hseen]; [by left|].
        destruct (decide (x = a)) as [->|Hne]; [by left|].
        right. split; [done|]. by intros [?|?].
Qed.

Lemma setOfFrom_NoDup (seen l : list string) : NoDup (App.setOfFrom seen l).
Proof.
  revert seen. induction l as [|a l IH]; intros seen; simpl.
  - constructor.
  - destruct (decide (a ∈ seen)); [apply IH|].
    apply NoDup_cons. split; [|apply IH].
    rewrite setOfFrom_elem. intros [_ Hseen]. apply Hseen. by left.
Qed.

#[global] Instance stringLe_total : Total App.stringLe.
Proof. intros a b. apply String.leb_total. Qed.

Lemma monthsOf_elem (dates : list string) (m : string) :
  m ∈ App.monthsOf dates ↔ ∃ d, d ∈ dates ∧ String.substring 0 7 d = m.
Proof.
  unfold App.monthsOf, App.setOf.
  rewrite elem_of_reverse, merge_sort_Permutation, setOfFrom_elem.
  rewrite list_elem_of_fmap. split.
  - intros [(d & -> & Hd) _]. by exists d.
  - intros (d & Hd & <-). split; [by exists d|]. apply not_elem_of_nil.
Qed.

Lemma monthsOf_NoDup (dates : list string) : NoDup (App.monthsOf dates).
Proof.
  unfold App.monthsOf, App.setOf.
  rewrite reverse_Permutation, merge_sort_Permutation.
  apply setOfFrom_NoDup.
Qed.

Lemma monthsOf_Sorted (dates : list string) :
  Sorted (flip App.stringLe) (App.monthsOf dates).
Proof.
  unfold App.monthsOf. apply Sorted_reverse, Sorted_merge_sort, _.
Qed.


(** X14.  The month selects of the sales and expenses pages offer
    exactly the months (the first seven characters of the date) in which a
    record exists, each once, from the last to the first in the order of
    the strings. *)
Theorem month_selects (ls : LocalStorage) :
  ((∀ m, m ∈ App.saleMonths ls ↔
         ∃ s, s ∈ Store.getSales ls ∧ String.substring 0 7 (Sale.date s) = m)
   ∧ NoDup (App.saleMonths ls)
   ∧ Sorted (flip App.stringLe) (App.saleMonths ls))
  ∧ ((∀ m, m ∈ App.expenseMonths ls ↔
           ∃ e, e ∈ Store.getExpenses ls
                ∧ String.substring 0 7 (Expense.date e) = m)
     ∧ NoDup (App.expenseMonths ls)
     ∧ Sorted (flip App.stringLe) (App.expenseMonths ls)).
Proof.
  unfold App.saleMonths, App.expenseMonths.
  split; (split; [|split; [apply monthsOf_NoDup | apply monthsOf_Sorted]]).
  - intros m. rewrite monthsOf_elem. split.
    + intros (d & Hd & <-). apply list_elem_of_fmap in Hd as (s & -> & Hs).
      by exists s.
    + intros (s & Hs & <-). exists (Sale.date s). split; [|done].
      apply list_elem_of_fmap. by exists s.
  - intros m. rewrite monthsOf_elem. split.
    + intros (d & Hd & <-). apply list_elem_of_fmap in Hd as (e & -> & He).
      by exists e.
    + intros (e & He & <-). exists (Expense.date e). split; [|done].
      apply list_elem_of_fmap. by exists e.
Qed.


Example sample_sale_months : App.saleMonths Sample.ventas = ["2024-03"; "2024-02"].
Proof. reflexivity. Qed.


(** * Properties of the forms *)

(** ** Editing a client and a transaction *)

(** X16.  The edit button of a stored client opens the form on that
    client, and submitting it replaces the client in place: same id, same
    number of clients, same ids in the same order.  The edit button of an
    id that the store does not find opens the form of a new client, whose
    submission appends a client under a generated id. *)
Theorem edit_client (id name phone : string) (w : World) :
  let ls := localStorage w in
  (∀ client, Store.getClient id ls = Some client → id ≠ "" →
     let ls' := localStorage (exec (App.submitClient (Some client) name phone) w) in
     App.handleEditClick "clients" id ls = Some (App.ClientForm (Some client))
     ∧ Store.getClient id ls' = Some (Client.mk id name phone)
     ∧ length (Store.getClients ls') = length (Store.getClients ls)
     ∧ idsOf (Known clients) ls' = idsOf (Known clients) ls)
  ∧ (Store.getClient id ls = None →
     let ls' := localStorage (exec (App.submitClient None name phone) w) in
     App.handleEditClick "clients" id ls = Some (App.ClientForm None)
     ∧ Store.getClients ls'
       = Store.getClients ls ++ [Client.mk (nextId w) name phone]).
Proof.
  intros ls. subst ls. split.
  - intros client Hget Hid ls'. subst ls'.
    assert (Client.id client = id) as Hcid.
    { unfold Store.getClient in Hget.
      destruct (list_find _ _) as [[i x]|] eqn:Hfind; [|done].
      apply list_find_Some in Hfind as (_ & Hx & _).
      simpl in Hget. by injection Hget as <-. }
    unfold App.handleEditClick. rewrite decide_True by done.
    rewrite Hget. split; [done|].
    unfold App.submitClient. rewrite exec_then_ret.
    cbn [App.hiddenId idOf]. rewrite Hcid.
    pose proof (lookup_after_save_update (Known clients)
                  (Client.mk id name phone) w Hid) as Hlookup.
    split; [|split].
    + apply Hlookup. by exists client.
    + unfold Store.getClients.
      rewrite (save_update_read (Known clients)) by done.
      destruct (list_find _ _) as [[i x]|]; [apply length_insert|done].
    + by apply (ids_after_update (Known clients)).
  - intros Hget ls'. subst ls'.
    unfold App.handleEditClick. rewrite decide_True by done.
    rewrite Hget. split; [done|].
    unfold App.submitClient. rewrite exec_then_ret.
    unfold Store.getClients.
    by rewrite (save_create_read (Known clients)).
Qed.

Lemma edit_client_witness :
  Store.getClient "c2"
    (localStorage
       (exec (App.submitClient (Some Sample.beto) "Roberto" "555-0199")
          Sample.world))
  = Some (Client.mk "c2" "Roberto" "555-0199")
  ∧ Store.getClients
      (localStorage (exec (App.submitClient None "Caro" "555-0103") Sample.world))
    = [Sample.ana; Sample.beto; Client.mk "loyw3v284fzzzxjylrx" "Caro" "555-0103"].
Proof.
  destruct (edit_client "c2" "Roberto" "555-0199" Sample.world) as [Hedit _].
  destruct (edit_client "c9" "Caro" "555-0103" Sample.world) as [_ Hnew].
  split.
  - apply (Hedit Sample.beto); [reflexivity | discriminate].
  - destruct Hnew as [_ Hlist]; [reflexivity|].
    etrans; [exact Hlist | reflexivity].
Defined.

Lemma filter_insert_other {A} (P : A → Prop) `{∀ x, Decision (P x)}
    (l : list A) (i : nat) (old new : A) :
  l !! i = Some old → ¬ P old → ¬ P new →
  filter P (<[i := new]> l) = filter P l.
Proof.
  revert i. induction l as [|a l IH]; intros i Hl Hold Hnew; [done|].
  destruct i as [|i]; simpl in *.
  - injection Hl as ->. by rewrite !filter_cons_False.
  - rewrite !(filter_cons P a). by rewrite (IH i).
Qed.

(** X17.  Submitting the form of a stored transaction replaces it in
    place: the record keeps its id and its position, its client is the one
    the stored record names (the current client when it names none), and
    the transactions, hence the balance, of every other client are what
    they were.  Submitting the form of a new transaction appends it to the
    transactions of the current client and leaves those of every other
    client as they were. *)
Theorem transaction_form_moves_balance (currentClientId : string)
    (fd : TransactionForm.t) (w : World) :
  let ls := localStorage w in
  (∀ id old, Store.getTransaction id ls = Some old → id ≠ "" →
     let owner := App.orElse (Transaction.clientId old) currentClientId in
     let ls' := localStorage
                  (exec (App.submitTransaction (Some old) currentClientId fd) w) in
     Store.getTransaction id ls'
     = Some (Transaction.mk id owner (TransactionForm.date fd)
               (TransactionForm.amount fd) (TransactionForm.description fd))
     ∧ idsOf (Known transactions) ls' = idsOf (Known transactions) ls
     ∧ (∀ c, c ≠ Transaction.clientId old → c ≠ owner →
          Store.getTransactionsForClient c ls'
          = Store.getTransactionsForClient c ls
          ∧ Store.getClientBalance c ls' = Store.getClientBalance c ls))
  ∧ (let ls' := localStorage
                  (exec (App.submitTransaction None currentClientId fd) w) in
     Store.getTransactionsForClient currentClientId ls'
     = Store.getTransactionsForClient currentClientId ls
       ++ [Transaction.mk (nextId w) currentClientId (TransactionForm.date fd)
             (TransactionForm.amount fd) (TransactionForm.description fd)]
     ∧ (∀ c, c ≠ currentClientId →
          Store.getTransactionsForClient c ls'
          = Store.getTransactionsForClient c ls
          ∧ Store.getClientBalance c ls' = Store.getClientBalance c ls)).
Proof.
  intros ls. subst ls. split.
  - intros id old Hget Hid owner ls'. subst owner ls'.
    unfold Store.getTransaction in Hget.
    destruct (list_find _ _) as [[i x]|] eqn:Hfind; [|done].
    simpl in Hget. injection Hget as ->.
    pose proof Hfind as Hfind'.
    apply list_find_Some in Hfind' as (Hl & Hold & _). subst id.
    unfold App.submitTransaction. rewrite exec_then_ret.
    cbn [App.hiddenId idOf].
    set (new := Transaction.mk (Transaction.id old) _ _ _ _).
    assert (Hnewid : idOf (k := Known transactions) new ≠ "") by done.
    split; [|split].
    + apply (lookup_after_save_update (Known transactions) new w Hnewid).
      exists old. unfold findById.
      assert (list_find
                (λ x : entity (Known transactions),
                   idOf x = idOf (k := Known transactions) new)
                (Store.read (Known transactions) (localStorage w))
              = Some (i, old)) as -> by exact Hfind.
      done.
    + by apply (ids_after_update (Known transactions)).
    + intros c Hc Hown.
      assert (Hsame :
        Store.getTransactionsForClient c
          (localStorage (exec (Store.save (Known transactions) new) w))
        = Store.getTransactionsForClient c (localStorage w)).
      { unfold Store.getTransactionsForClient.
        rewrite (save_update_read (Known transactions)) by done.
        assert (list_find
                  (λ x : entity (Known transactions),
                     idOf x = idOf (k := Known transactions) new)
                  (Store.read (Known transactions) (localStorage w))
                = Some (i, old)) as -> by exact Hfind.
        apply (filter_insert_other _ _ i old new Hl); simpl; congruence. }
      split; [exact Hsame|]. unfold Store.getClientBalance. by rewrite Hsame.
  - cbv zeta. unfold App.submitTransaction. rewrite exec_then_ret.
    cbn [App.hiddenId].
    unfold Store.getTransactionsForClient.
    rewrite (save_create_read (Known transactions)) by done.
    rewrite filter_app. split.
    + rewrite filter_cons_True by done. done.
    + intros c Hc.
      assert (Hsame :
        filter (λ t, Transaction.clientId t = c)
          (Store.read (Known transactions) (localStorage w)
           ++ [setId (k := Known transactions) (nextId w)
                 (Transaction.mk "" currentClientId (TransactionForm.date fd)
                    (TransactionForm.amount fd)
                    (TransactionForm.description fd))])
        = filter (λ t, Transaction.clientId t = c)
            (Store.read (Known transactions) (localStorage w))).
      { rewrite filter_app, filter_cons_False by (simpl; congruence).
        by rewrite filter_nil, app_nil_r. }
      split; [exact Hsame|].
      unfold Store.getClientBalance, Store.getTransactionsForClient.
      rewrite (save_create_read (Known transactions)) by done.
      by rewrite Hsame.
Qed.

Lemma transaction_form_moves_balance_witness :
  Store.getTransaction "t2"
    (localStorage
       (exec (App.submitTransaction (Some Sample.pago) "c2"
                (TransactionForm.mk (-25000) "pago corregido" "2024-03-05"))
          Sample.world))
  = Some (Transaction.mk "t2" "c1" "2024-03-05" (-25000) "pago corregido")
  ∧ Store.getClientBalance "c2"
      (localStorage
         (exec (App.submitTransaction (Some Sample.pago) "c2"
                  (TransactionForm.mk (-25000) "pago corregido" "2024-03-05"))
            Sample.world))
    = -700.
Proof.
  destruct (transaction_form_moves_balance "c2"
              (TransactionForm.mk (-25000) "pago corregido" "2024-03-05")
              Sample.world) as [Hedit _].
  destruct (Hedit "t2" Sample.pago) as (Hsaved & _ & Hothers);
    [reflexivity | discriminate |].
  split; [exact Hsaved|].
  destruct (Hothers "c2") as [_ Hbalance]; [discriminate | discriminate |].
  etrans; [exact Hbalance | reflexivity].
Defined.

(** ** More on the sale form *)

(** The three ways the stock check ends. *)
Lemma takeFromStock_cases (isEditing : bool) (fd : SaleForm.t) (w : World) :
  ((isEditing = true ∨ SaleForm.productId fd = "")
   ∧ App.takeFromStock isEditing fd w = (true, w))
  ∨ (isEditing = false ∧ SaleForm.productId fd ≠ ""
     ∧ (Store.getProduct (SaleForm.productId fd) (localStorage w) = None
        ∨ SaleForm.quantity fd = None
        ∨ ∃ product q,
            Store.getProduct (SaleForm.productId fd) (localStorage w)
              = Some product
            ∧ SaleForm.quantity fd = Some q ∧ Product.quantity product < q)
     ∧ App.takeFromStock isEditing fd w = (false, w))
  ∨ (∃ product q,
       isEditing = false
       ∧ SaleForm.productId fd = Product.id product ∧ Product.id product ≠ ""
       ∧ Store.getProduct (Product.id product) (localStorage w) = Some product
       ∧ SaleForm.quantity fd = Some q ∧ q ≤ Product.quantity product
       ∧ App.takeFromStock isEditing fd w
         = (true,
            exec (Store.save (Known products)
                    (Product.set_quantity (Product.quantity product - q) product))
              w)).
Proof.
  destruct isEditing.
  { left. split; [by left|]. by apply takeFromStock_manual; left. }
  destruct (decide (SaleForm.productId fd = "")) as [Hpid|Hpid].
  { left. split; [by right|]. by apply takeFromStock_manual; right. }
  destruct (Store.getProduct (SaleForm.productId fd) (localStorage w))
    as [product|] eqn:Hget.
  2: { right. left. split; [done|]. split; [done|]. split; [by left|].
       unfold App.takeFromStock. rewrite (proj2 (truthy_true _) Hpid). simpl.
       unfold bind at 1, App.store. simpl. by rewrite Hget. }
  pose proof (getProduct_id _ _ _ Hget) as Hprod.
  destruct (SaleForm.quantity fd) as [q|] eqn:Hq.
  2: { right. left. split; [done|]. split; [done|].
       split; [by right; left|].
       unfold App.takeFromStock. rewrite (proj2 (truthy_true _) Hpid), Hq. simpl.
       unfold bind at 1, App.store. simpl. by rewrite Hget. }
  destruct (decide (q ≤ Product.quantity product)) as [Hle|Hgt].
  - right. right. exists product, q. rewrite Hprod.
    split; [done|]. split; [done|]. split; [done|]. split; [done|].
    split; [done|]. split; [done|].
    apply takeFromStock_enough; rewrite ?Hprod; done.
  - right. left. split; [done|]. split; [done|].
    split; [right; right; exists product, q; repeat split; [done..|lia]|].
    apply (takeFromStock_short fd product q); rewrite ?Hprod; (done || lia).
Qed.

(** X18.  The stock alert of the sale form is raised exactly when a new
    sale names a product and the product is not found, or the quantity
    field holds no number, or the quantity exceeds the stock; and whenever
    it is raised nothing at all has been written. *)
Theorem stock_alert_exactly (fd : SaleForm.t) (w : World) :
  let ls := localStorage w in
  (eval (App.submitSale None fd) w = App.Rendered
   ∨ eval (App.submitSale None fd) w = App.Alerted App.insufficientStock)
  ∧ (eval (App.submitSale None fd) w = App.Alerted App.insufficientStock ↔
     SaleForm.productId fd ≠ ""
     ∧ (Store.getProduct (SaleForm.productId fd) ls = None
        ∨ SaleForm.quantity fd = None
        ∨ ∃ product q,
            Store.getProduct (SaleForm.productId fd) ls = Some product
            ∧ SaleForm.quantity fd = Some q ∧ Product.quantity product < q))
  ∧ (eval (App.submitSale None fd) w = App.Alerted App.insufficientStock →
     exec (App.submitSale None fd) w = w).
Proof.
  intros ls. subst ls. unfold eval, exec.
  destruct (takeFromStock_cases false fd w)
    as [[Hmanual Hrun]|[(_ & Hpid & Hwhy & Hrun)|(product & q & _ & Hpid & Hid
         & Hget & Hq & Hle & Hrun)]].
  - rewrite (submitSale_in_stock None fd w w Hrun). cbn [fst snd].
    split; [by left|]. split; [|done]. split; [done|].
    intros [Hpid _]. by destruct Hmanual.
  - rewrite (submitSale_out_of_stock None fd w w Hrun). cbn [fst snd].
    split; [by right|]. split; [|done]. by split.
  - rewrite (submitSale_in_stock None fd w _ Hrun). cbn [fst snd].
    split; [by left|]. split; [|done]. split; [done|].
    rewrite Hpid, Hget, Hq.
    intros [_ [?|[?|(p' & q' & [= <-] & [= <-] & Hlt)]]]; (done || lia).
Qed.

Lemma stock_alert_exactly_witness :
  eval (App.submitSale None
          (SaleForm.choose (App.productOption Sample.tornillos) None
             Sample.blankSale))
    Sample.world
  = App.Alerted App.insufficientStock.
Proof.
  apply (stock_alert_exactly
           (SaleForm.choose (App.productOption Sample.tornillos) None
              Sample.blankSale) Sample.world).
  split; [discriminate|]. right. by left.
Defined.

Lemma save_product_forall (P : Product.t → Prop) (item : Product.t) (w : World) :
  Product.id item ≠ "" → P item →
  Forall P (Store.getProducts (localStorage w)) →
  Forall P (Store.getProducts
              (localStorage (exec (Store.save (Known products) item) w))).
Proof.
  intros Hid Hitem Hall. apply Forall_forall. intros x Hx.
  unfold Store.getProducts in Hx.
  apply (save_read_elem (Known products)) in Hx as [->|Hx].
  - rewrite save_eval. simpl. by rewrite (proj2 (truthy_true _) Hid).
  - by apply (proj1 (Forall_forall _ _) Hall).
Qed.

(** What the stock check leaves untouched. *)
Lemma takeFromStock_frame (isEditing : bool) (fd : SaleForm.t) (w : World) :
  let w1 := exec (App.takeFromStock isEditing fd) w in
  (∀ k, k ≠ Known products →
        Store.read k (localStorage w1) = Store.read k (localStorage w))
  ∧ nextId w1 = nextId w
  ∧ (Forall (λ p, 0 ≤ Product.quantity p) (Store.getProducts (localStorage w)) →
     Forall (λ p, 0 ≤ Product.quantity p) (Store.getProducts (localStorage w1))).
Proof.
  intros w1. subst w1. unfold exec.
  destruct (takeFromStock_cases isEditing fd w)
    as [[_ ->]|[(_ & _ & _ & ->)|(product & q & _ & Hpid & Hid & Hget & Hq
         & Hle & ->)]]; cbn [snd]; try done.
  destruct (save_product_quantity product (Product.quantity product - q)
              w Hid Hget) as (_ & _ & Hkeep & Hg & Hd & Hr).
  split; [exact Hkeep|]. split; [by apply nextId_same|].
  apply save_product_forall; [done|simpl; lia].
Qed.

Lemma submitSale_exec (sale : option Sale.t) (fd : SaleForm.t) (w : World) :
  (eval (App.submitSale sale fd) w = App.Alerted App.insufficientStock
   ∧ exec (App.submitSale sale fd) w = w)
  ∨ (eval (App.submitSale sale fd) w = App.Rendered
     ∧ exec (App.submitSale sale fd) w
       = exec (App.recordSale sale fd)
           (exec (App.takeFromStock (bool_decide (is_Some sale)) fd) w)).
Proof.
  unfold eval, exec.
  destruct (takeFromStock_cases (bool_decide (is_Some sale)) fd w)
    as [[_ Hrun]|[(_ & _ & _ & Hrun)|(product & q & _ & _ & _ & _ & _ & _
         & Hrun)]].
  - right. rewrite (submitSale_in_stock sale fd w w Hrun). by rewrite Hrun.
  - left. by rewrite (submitSale_out_of_stock sale fd w w Hrun).
  - right. rewrite (submitSale_in_stock sale fd w _ Hrun). by rewrite Hrun.
Qed.

(** ** The stock *)

Lemma receiveStock_cases (isEditing : bool) (fd : CreditorTransactionForm.t)
    (w : World) :
  exec (App.receiveStock isEditing fd) w = w
  ∨ ∃ product q,
      Product.id product ≠ "" ∧ q > 0
      ∧ Store.getProduct (Product.id product) (localStorage w) = Some product
      ∧ exec (App.receiveStock isEditing fd) w
        = exec (Store.save (Known products)
                  (Product.set_quantity (Product.quantity product + q) product)) w.
Proof.
  unfold App.receiveStock.
  destruct (CreditorTransactionForm.quantity fd) as [q|]; [|by left].
  destruct (truthy (CreditorTransactionForm.productId fd)) eqn:Hpid;
    [|by left].
  destruct (bool_decide (q > 0)) eqn:Hq; [|by left].
  destruct isEditing; [by left|]. simpl.
  rewrite exec_bind. unfold App.store at 1 2, eval, exec at 2. simpl.
  destruct (Store.getProduct _ _) as [product|] eqn:Hget; [|by left].
  right. exists product, q.
  pose proof (getProduct_id _ _ _ Hget) as Hprod.
  apply truthy_true in Hpid. apply bool_decide_eq_true in Hq.
  rewrite Hprod. split; [done|]. split; [done|]. split; [done|].
  apply exec_then_ret.
Qed.

(** X20.  The sale form and the creditor transaction form never make a
    stock negative: if every product has a quantity of at least zero
    before the form is submitted, so it is afterwards, whatever the form
    holds and whether the sale is accepted or refused. *)
Theorem stock_stays_non_negative (w : World) :
  let inStock := λ ls, Forall (λ p, 0 ≤ Product.quantity p) (Store.getProducts ls) in
  inStock (localStorage w) →
  (∀ (sale : option Sale.t) (fd : SaleForm.t),
     inStock (localStorage (exec (App.submitSale sale fd) w)))
  ∧ (∀ (transaction : option CreditorTransaction.t) (currentCreditorId : string)
       (fd : CreditorTransactionForm.t),
       inStock
         (localStorage
            (exec (App.submitCreditorTransaction transaction currentCreditorId fd)
               w))).
Proof.
  intros inStock Hstock. subst inStock. cbv beta in *. split.
  - intros sale fd.
    destruct (submitSale_exec sale fd w) as [[_ ->]|[_ ->]]; [done|].
    rewrite recordSale_products.
    by apply (takeFromStock_frame (bool_decide (is_Some sale)) fd w).
  - intros transaction currentCreditorId fd.
    unfold App.submitCreditorTransaction.
    rewrite exec_bind, exec_then_ret.
    unfold Store.getProducts.
    rewrite (save_other_keys (Known creditorTransactions) (Known products))
      by done.
    destruct (receiveStock_cases (bool_decide (is_Some transaction)) fd w)
      as [->|(product & q & Hid & Hq & Hget & ->)]; [done|].
    apply save_product_forall; [done| |done]. simpl.
    assert (product ∈ Store.getProducts (localStorage w)) as Hin.
    { unfold Store.getProduct in Hget.
      destruct (list_find _ _) as [[i x]|] eqn:Hfind; [|done].
      apply list_find_Some in Hfind as (Hl & _).
      simpl in Hget. injection Hget as ->.
      by eapply list_elem_of_lookup_2. }
    pose proof (proj1 (Forall_forall _ _) Hstock product Hin). simpl in *. lia.
Qed.

Lemma stock_stays_non_negative_witness :
  Forall (λ p, 0 ≤ Product.quantity p)
    (Store.getProducts
       (localStorage
          (exec (App.submitSale None
                   (SaleForm.choose (App.productOption Sample.tornillos)
                      (Some (-4)) Sample.blankSale))
             Sample.world))).
Proof.
  destruct (stock_stays_non_negative Sample.world) as [Hsale _].
  - unfold Store.getProducts. simpl.
    repeat (apply Forall_cons; split; [discriminate|]). apply Forall_nil_2.
  - apply Hsale.
Defined.

Lemma getProduct_NoDup (p : Product.t) (ls : LocalStorage) :
  NoDup (idsOf (Known products) ls) → p ∈ Store.getProducts ls →
  Store.getProduct (Product.id p) ls = Some p.
Proof.
  intros Hnodup Hin. unfold Store.getProduct, Store.getProducts, idsOf in *.
  apply list_elem_of_lookup in Hin as [j Hj].
  destruct (list_find _ _) as [[i x]|] eqn:Hfind.
  - apply list_find_Some in Hfind as (Hi & Hx & _). simpl. f_equal.
    assert (i = j) as ->; [|congruence].
    apply (NoDup_lookup _ i j (Product.id p) Hnodup).
    + apply list_lookup_fmap_Some. by exists x.
    + apply list_lookup_fmap_Some. by exists p.
  - apply list_find_None in Hfind.
    exfalso. eapply (proj1 (Forall_forall _ _) Hfind p); [|done].
    by eapply list_elem_of_lookup_2.
Qed.

(** X21.  When the ids of the products are pairwise distinct, every
    option that the sale form offers can be sold: a new sale of one unit
    (the initial value of the quantity input) of any offered option is
    never refused. *)
Theorem offered_products_can_be_sold (fd : SaleForm.t) (w : World) :
  let ls := localStorage w in
  NoDup (idsOf (Known products) ls) →
  SaleForm.productSelect fd ∈ App.productOptions ls →
  SaleForm.quantity fd = Some 1 →
  eval (App.submitSale None fd) w = App.Rendered.
Proof.
  intros ls Hnodup Hoffered Hq. subst ls.
  unfold App.productOptions in Hoffered.
  apply elem_of_cons in Hoffered as [Hmanual|Hproduct].
  - unfold eval.
    rewrite (submitSale_in_stock None fd w w); [done|].
    apply takeFromStock_manual. right.
    unfold SaleForm.productId. by rewrite Hmanual.
  - apply list_elem_of_fmap in Hproduct as (p & Hsel & Hp).
    apply list_elem_of_filter in Hp as [Hpos Hp].
    destruct (decide (Product.id p = "")) as [Hid|Hid].
    + unfold eval. rewrite (submitSale_in_stock None fd w w); [done|].
      apply takeFromStock_manual. right.
      unfold SaleForm.productId. by rewrite Hsel.
    + unfold eval.
      rewrite (submitSale_in_stock None fd w _
                 (takeFromStock_enough fd p 1 w
                    ltac:(unfold SaleForm.productId; by rewrite Hsel) Hid
                    (getProduct_NoDup p _ Hnodup Hp) Hq ltac:(lia))).
      done.
Qed.

Lemma offered_products_can_be_sold_witness :
  eval (App.submitSale None
          (SaleForm.choose (App.productOption Sample.muestra) (Some 1)
             Sample.blankSale))
    Sample.world
  = App.Rendered.
Proof.
  apply offered_products_can_be_sold.
  - by apply (bool_decide_unpack _).
  - unfold App.productOptions. simpl.
    apply elem_of_cons. right. apply elem_of_cons. right. apply elem_of_cons.
    by left.
  - reflexivity.
Defined.

(** ** Expenses and the creditor ledger *)


(** ** The "+" button and the navigation *)

Lemma renderPage_view (st : App.State) (ls : LocalStorage) :
  (App.renderPage st ls).1 = viewOfPage (App.currentPage st).
Proof. unfold App.renderPage. by destruct (App.currentPage st). Qed.




(** X24.  A click on the navigation button of another page clears the
    client and creditor selection and shows the list of that page.  A click
    on the button of the current page does nothing at all, also while a
    detail page is open. *)
Theorem navigation (page : Page.t) (st : App.State) (ls : LocalStorage) :
  (page = App.currentPage st → App.navClick page st ls = None)
  ∧ (page ≠ App.currentPage st →
     ∃ st' : App.State,
       App.navClick page st ls = Some (viewOfPage page, st')
       ∧ App.currentPage st' = page
       ∧ App.currentClientId st' = "" ∧ App.currentCreditorId st' = "").
Proof.
  unfold App.navClick. split.
  - intros ->. by rewrite decide_False by (intros Hne; by apply Hne).
  - intros Hne. rewrite decide_True by done.
    set (st0 := App.mkState page "" "" _ _ _ _).
    assert (App.render st0 ls = App.renderPage st0 ls) as -> by reflexivity.
    destruct (renderPage_selection st0 ls) as (Hv & Hci & Hki).
    destruct (renderPage_spec st0 ls) as (_ & _ & Hp & _).
    cbv zeta in Hp.
    exists (App.renderPage st0 ls).2. split; [|by rewrite Hp, Hci, Hki].
    rewrite (surjective_pairing (App.renderPage st0 ls)) at 1.
    by rewrite Hv, Hp.
Qed.

Lemma navigation_witness :
  App.navClick Page.clients Sample.onAna Sample.storage = None
  ∧ ∃ st' : App.State,
      App.navClick Page.inventory Sample.onAna Sample.storage
      = Some (App.InventoryView, st')
      ∧ App.currentClientId st' = "".
Proof.
  destruct (navigation Page.clients Sample.onAna Sample.storage) as [Hsame _].
  destruct (navigation Page.inventory Sample.onAna Sample.storage)
    as [_ Hother].
  split; [by apply Hsame|].
  destruct Hother as (st' & Hclick & _ & Hclient & _); [discriminate|].
  exists st'. split; [exact Hclick | exact Hclient].
Defined.

(** * Properties of the service worker *)

Section service_worker.
Import ServiceWorker.

Lemma putAll_lookup_other (entries : list (string * Response)) (c : Cache)
    (url : string) :
  url ∉ entries.*1 → putAll entries c !! url = c !! url.
Proof.
  revert c. induction entries as [|[u r] entries IH]; intros c Hnot; [done|].
  unfold putAll in *. simpl. rewrite IH.
  - apply lookup_insert_ne. intros ->. apply Hnot. simpl. by left.
  - intros Hin. apply Hnot. simpl. by right.
Qed.

Lemma fetchAll_urls (net : Network) (urls : list string)
    (entries : list (string * Response)) :
  fetchAll net urls = Some entries → entries.*1 = urls.
Proof.
  revert entries. induction urls as [|u urls IH]; intros entries Hall; simpl in *.
  - by injection Hall as <-.
  - destruct (net u) as [r|]; [|done].
    destruct (fetchAll net urls) as [rest|]; [|done].
    injection Hall as <-. simpl. f_equal. by apply IH.
Qed.

Lemma fetchAll_Some (net : Network) (urls : list string) :
  is_Some (fetchAll net urls) ↔ ∀ url, url ∈ urls → is_Some (net url).
Proof.
  induction urls as [|u urls IH]; simpl.
  - split; [by intros _ url ?%elem_of_nil|by eexists].
  - split.
    + intros Hall url Hurl.
      destruct (net u) as [r|] eqn:Hu; [|by destruct Hall].
      destruct (fetchAll net urls) as [rest|]; [|by destruct Hall].
      apply elem_of_cons in Hurl as [->|Hurl]; [by rewrite Hu|].
      apply IH; [by eexists|done].
    + intros Hall. destruct (Hall u ltac:(left)) as [r ->].
      destruct (proj2 IH) as [rest ->]; [|by eexists].
      intros url Hurl. apply Hall. by right.
Qed.

Lemma putAll_lookup (net : Network) (urls : list string)
    (entries : list (string * Response)) (c : Cache) (url : string) :
  fetchAll net urls = Some entries → url ∈ urls →
  putAll entries c !! url = net url.
Proof.
  revert entries c. induction urls as [|u urls IH]; intros entries c Hall Hurl.
  { by apply elem_of_nil in Hurl. }
  simpl in Hall. destruct (net u) as [r|] eqn:Hu; [|done].
  destruct (fetchAll net urls) as [rest|] eqn:Hrest; [|done].
  injection Hall as <-.
  change (putAll ((u, r) :: rest) c) with (putAll rest (<[u := r]> c)).
  destruct (decide (url ∈ urls)) as [Hin|Hnot].
  - by apply IH.
  - apply elem_of_cons in Hurl as [->|Hurl]; [|done].
    rewrite putAll_lookup_other by (by rewrite (fetchAll_urls net urls)).
    by rewrite lookup_insert_eq.
Qed.

Lemma cachesOpen_has (name : string) (cs : CacheStorage) :
  name ∈ (cachesOpen name cs).*1.
Proof.
  unfold cachesOpen. destruct (decide (name ∈ cs.*1)); [done|].
  rewrite fmap_app. apply elem_of_app. right. simpl. by left.
Qed.

Lemma activate_inCache (f : Cache → Cache) (cs : CacheStorage) :
  CACHE_NAME ∈ cs.*1 →
  ∃ c rest, activate (inCache CACHE_NAME f cs) = (CACHE_NAME, f c) :: rest.
Proof.
  induction cs as [|[n c] cs IH]; intros Hin; [by apply elem_of_nil in Hin|].
  simpl. destruct (decide (n = CACHE_NAME)) as [->|Hne].
  - exists c. eexists. unfold activate. rewrite filter_cons_True; [done|].
    simpl. by left.
  - destruct IH as (c' & rest & Hrest).
    { simpl in Hin. by apply elem_of_cons in Hin as [?|?]. }
    exists c', rest. unfold activate in *. rewrite filter_cons_False; [done|].
    simpl. intros ?%list_elem_of_singleton. done.
Qed.

Lemma cachesMatch_inCache_id (request : string) (f : Cache → Cache)
    (name : string) (cs : CacheStorage) :
  (∀ c, f c !! request = c !! request) →
  cachesMatch request (inCache name f cs) = cachesMatch request cs.
Proof.
  intros Hf. induction cs as [|[n c] cs IH]; [done|]. simpl.
  destruct (decide (n = name)); simpl; [by rewrite Hf|by rewrite IH].
Qed.

Lemma cachesMatch_open (request name : string) (cs : CacheStorage) :
  cachesMatch request (cachesOpen name cs) = cachesMatch request cs.
Proof.
  unfold cachesOpen. destruct (decide _) as [|Hnew]; [done|]. clear Hnew.
  induction cs as [|[n c] cs IH]; simpl; [done|].
  by destruct (c !! request).
Qed.

(** X25.  Offline use.  Once the install event has succeeded and the
    worker is activated, every URL of the precache list is answered from
    the cache with the response the network gave at installation, whatever
    the network answers now, also when it fails. *)
Theorem precached_urls_served_offline (net : Network) (cs cs1 : CacheStorage) :
  install net cs = (true, cs1) →
  ∀ (url : string) (later : Network),
    url ∈ urlsToCache →
    is_Some (net url) ∧ fetch url (activate cs1) later = net url.
Proof.
  unfold install. intros Hinstall url later Hurl.
  destruct (fetchAll net urlsToCache) as [entries|] eqn:Hall; [|done].
  injection Hinstall as <-.
  assert (is_Some (net url)) as Hsome.
  { apply (proj1 (fetchAll_Some net urlsToCache)); [by eexists|done]. }
  split; [done|].
  destruct (activate_inCache (putAll entries) (cachesOpen CACHE_NAME cs)
              (cachesOpen_has _ _)) as (c & rest & ->).
  unfold fetch. simpl.
  rewrite (putAll_lookup net urlsToCache entries c url Hall Hurl).
  by destruct Hsome as [r ->].
Qed.

Lemma precached_urls_served_offline_witness :
  let net : Network := λ url, Some ("v1 of " +:+ url) in
  let offline : Network := λ _, None in
  fetch "/index.html" (activate (install net []).2) offline
  = Some "v1 of /index.html".
Proof.
  intros net offline.
  apply (precached_urls_served_offline net [] (install net []).2).
  - reflexivity.
  - unfold urlsToCache. apply elem_of_cons. right. apply elem_of_cons. by left.
Defined.

(** X26.  The install event succeeds exactly when every URL of the
    precache list can be fetched.  When it fails nothing has been cached:
    every request is matched as before. *)
Theorem install_all_or_nothing (net : Network) (cs : CacheStorage) :
  ((install net cs).1 = true ↔ ∀ url, url ∈ urlsToCache → is_Some (net url))
  ∧ ((install net cs).1 = false →
     ∀ request, cachesMatch request (install net cs).2 = cachesMatch request cs).
Proof.
  unfold install.
  pose proof (fetchAll_Some net urlsToCache) as Hiff.
  destruct (fetchAll net urlsToCache) as [entries|]; simpl.
  - split; [|done]. split; [|done]. intros _. apply Hiff. by eexists.
  - split.
    + split; [done|]. intros Hall. by destruct (proj2 Hiff Hall).
    + intros _ request. apply cachesMatch_open.
Qed.

Lemma install_all_or_nothing_witness :
  let net : Network :=
    λ url, if decide (url = "/cookbook.json") then None else Some "ok" in
  cachesMatch "/index.html" (install net []).2 = None.
Proof.
  intros net.
  apply (install_all_or_nothing net []). reflexivity.
Defined.

Lemma cachesMatch_elem (request response : string) (cs : CacheStorage) :
  cachesMatch request cs = Some response →
  ∃ name c, (name, c) ∈ cs ∧ c !! request = Some response.
Proof.
  induction cs as [|[n c] cs IH]; intros Hmatch; [done|]. simpl in Hmatch.
  destruct (c !! request) as [r|] eqn:Hr.
  - injection Hmatch as <-. exists n, c. split; [by left|done].
  - destruct (IH Hmatch) as (n' & c' & Hin & Hc').
    exists n', c'. split; [by right|done].
Qed.

(** X27.  After the activate event only caches of the current name are
    left, with the contents they had; so a response served from a cache
    comes from a cache of the current name, and old caches are never
    served again. *)
Theorem activate_keeps_current_cache (cs : CacheStorage) :
  (∀ name c, (name, c) ∈ activate cs ↔ name = CACHE_NAME ∧ (name, c) ∈ cs)
  ∧ (∀ request response,
       cachesMatch request (activate cs) = Some response →
       ∃ c, (CACHE_NAME, c) ∈ cs ∧ c !! request = Some response).
Proof.
  assert (Hmem : ∀ name c,
            (name, c) ∈ activate cs ↔ name = CACHE_NAME ∧ (name, c) ∈ cs).
  { intros name c. unfold activate. rewrite list_elem_of_filter. simpl.
    by rewrite list_elem_of_singleton. }
  split; [exact Hmem|].
  intros request response Hmatch.
  apply cachesMatch_elem in Hmatch as (name & c & Hin & Hc).
  apply Hmem in Hin as [-> Hin]. by exists c.
Qed.

Lemma activate_keeps_current_cache_witness :
  cachesMatch "/old.js"
    (activate [("gestion-finanzas-cache-v3", {["/old.js" := "old"]});
               (CACHE_NAME, {["/" := "new"]})])
  = None.
Proof.
  apply eq_None_not_Some. intros [response Hmatch].
  apply activate_keeps_current_cache in Hmatch as (c & Hin & Hc).
  apply elem_of_cons in Hin as [[=]|Hin].
  apply elem_of_cons in Hin as [[= ->]|Hin]; [|by apply elem_of_nil in Hin].
  by rewrite lookup_singleton_ne in Hc.
Defined.

End service_worker.
